(** * Kirk API: payment gating, dual-token quotes and the data cache

    A shallow embedding of [src/lib/payments.ts], [src/config/pricing.ts],
    [src/config/tokens.ts] and of the cache and the trade views of
    [src/lib/ksvc-client.ts], followed by the properties of the written
    specification that were checked against it.

    Conventions of the embedding:
    - a JavaScript [number] is an IEEE-754 binary64 value, taken from the
      Standard Library's executable specification [SpecFloat] with
      [prec = 53] and [emax = 1024]; nothing is rounded away, and the
      special values [NaN], [+-Infinity] and [-0] are kept;
    - a [bigint] is a [Z];
    - timestamps ([Date.now()]) and array lengths are integers and are kept
      in [Z] and [nat];
    - a [throw] is the [Throw] outcome of the [completion] monad;
    - a [Map] is a [gmap]; the plain object [ENDPOINT_PRICES] is a [gmap]
      of its own properties together with the names it inherits from
      [Object.prototype];
    - an [await] is a point where a call is split in the part before and the
      part after it, so that other calls can run in between. *)

From Stdlib Require Import ZArith QArith Lia String Ascii List DecimalString.
From Stdlib Require Import Floats.SpecFloat.
From stdpp Require Import gmap strings list.

Local Open Scope Z_scope.

(* ===================================================================== *)
(** * Part I: definitions                                                 *)
(* ===================================================================== *)

(** ** Completions: normal return or throw *)

Inductive error :=
| RangeError (msg : string)
| TypeError (msg : string)
| Error (msg : string).

Inductive completion (A : Type) :=
| Normal (a : A)
| Throw (e : error).
Arguments Normal {A} a.
Arguments Throw {A} e.

#[global] Instance completion_ret : MRet completion := fun _ a => Normal a.

#[global] Instance completion_bind : MBind completion := fun _ _ k c =>
  match c with
  | Normal a => k a
  | Throw e => Throw e
  end.

(** ** JavaScript numbers *)

Module JS.

Definition prec : Z := 53.
Definition emax : Z := 1024.

Definition number : Type := spec_float.

Definition NaN : number := S754_nan.
Definition Infinity : number := S754_infinity false.
Definition zero : number := S754_zero false.

(** The number an integer literal denotes. *)
Definition of_Z (z : Z) : number := binary_normalize prec emax z 0 false.

(** The number a decimal literal [n / d] denotes, [d] a power of ten:
    the correctly rounded quotient of the two integers. *)
Definition of_ratio (n d : positive) : number :=
  SFdiv prec emax (S754_finite false n 0) (S754_finite false d 0).

Definition one : number := of_Z 1.

Definition mul : number -> number -> number := SFmul prec emax.
Definition sub : number -> number -> number := SFsub prec emax.
Definition div : number -> number -> number := SFdiv prec emax.

(** [x <= y], [x > y] and [x === y]; all false on [NaN]. *)
Definition le (x y : number) : bool := SFleb x y.
Definition gt (x y : number) : bool := SFltb y x.
Definition strict_eq (x y : number) : bool := SFeqb x y.

(** [ToBoolean]: [0], [-0] and [NaN] are falsy. *)
Definition truthy (x : number) : bool :=
  match x with
  | S754_zero _ | S754_nan => false
  | _ => true
  end.

(** [x || y] on numbers. *)
Definition or_else (x y : number) : number := if truthy x then x else y.

Definition is_finite (x : number) : bool :=
  match x with
  | S754_zero _ | S754_finite _ _ _ => true
  | _ => false
  end.

(** [10 ** n] for the decimals counts in use: [10^n] is a binary64 value
    for [n <= 22]. *)
Definition pow10 (n : Z) : number := of_Z (10 ^ n).

(** [Math.floor], [Math.ceil] and [Math.round] share their shape: a number
    with a non-negative exponent is integral already; otherwise the
    mantissa [n] is divided by [2^k] with the rounding of the function. A
    zero result keeps the sign of the argument. *)
Definition integral (rnd : Z -> Z -> Z) (x : number) : number :=
  match x with
  | S754_finite s m e =>
      if 0 <=? e then x
      else
        let z := rnd (cond_Zopp s (Zpos m)) (- e) in
        if z =? 0 then S754_zero s else binary_normalize prec emax z 0 s
  | _ => x
  end.

Definition floor_div (n k : Z) : Z := n / 2 ^ k.
Definition ceil_div (n k : Z) : Z := - ((- n) / 2 ^ k).
(** round half up: [floor (x + 1/2)] *)
Definition round_div (n k : Z) : Z := (2 * n + 2 ^ k) / 2 ^ (k + 1).

Definition Math_floor : number -> number := integral floor_div.
Definition Math_ceil : number -> number := integral ceil_div.
Definition Math_round : number -> number := integral round_div.

(** [BigInt(x)]: a [RangeError] unless [x] is an integral number. *)
Definition not_an_integer : error :=
  RangeError "The number cannot be converted to a BigInt because it is not an integer".

Definition BigInt (x : number) : completion Z :=
  match x with
  | S754_zero _ => Normal 0
  | S754_finite s m e =>
      if 0 <=? e then Normal (cond_Zopp s (Zpos m * 2 ^ e))
      else if (Zpos m) mod 2 ^ (- e) =? 0
           then Normal (cond_Zopp s (Zpos m / 2 ^ (- e)))
           else Throw not_an_integer
  | _ => Throw not_an_integer
  end.

(** [BigInt.prototype.toString()]: the decimal digits, with a minus sign
    for a negative value. *)
Definition toString (z : Z) : string := NilZero.string_of_int (Z.to_int z).

(** The rational a number stands for ([0] for the values that stand for
    none). *)
Definition to_Q (x : number) : Q :=
  match x with
  | S754_finite s m e =>
      if 0 <=? e then Qmake (cond_Zopp s (Zpos m * 2 ^ e)) 1
      else Qmake (cond_Zopp s (Zpos m)) (Z.to_pos (2 ^ (- e)))
  | _ => 0%Q
  end.

End JS.

(** ** What Part II says about numbers *)

Module Float.

Import JS.

Definition sign (x : number) : bool :=
  match x with
  | S754_zero s | S754_infinity s | S754_finite s _ _ => s
  | S754_nan => false
  end.

(** The shapes a rounded result can take: the sign is the one asked for,
    and a finite result has a 53-bit mantissa. *)
Inductive rounded (s : bool) : number -> Prop :=
| rounded_zero : rounded s (S754_zero s)
| rounded_infinity : rounded s (S754_infinity s)
| rounded_finite m e :
    Zpos m < 2 ^ 53 -> -1074 <= e <= 971 -> rounded s (S754_finite s m e).

(** The integer [Math.floor], [Math.ceil] or [Math.round] computes. *)
Definition integer_of (rnd : Z -> Z -> Z) (x : number) : Z :=
  match x with
  | S754_finite s m e =>
      if 0 <=? e then cond_Zopp s (Zpos m * 2 ^ e)
      else rnd (cond_Zopp s (Zpos m)) (- e)
  | _ => 0
  end.

Definition small (x : number) : Prop :=
  match x with
  | S754_finite _ m _ => Zpos m < 2 ^ 53
  | _ => True
  end.

(** A positive normal number: [2^-1022 <= x < 2^1024]. *)
Definition positive_normal (x : number) : Prop :=
  exists m e,
    x = S754_finite false m e /\ Zpos (digits2_pos m) = 53 /\ -1074 <= e <= 971.

(** A rounding of [n / 2^k] that does not leave the range of [n]. *)
Definition contracting (rnd : Z -> Z -> Z) : Prop :=
  forall n k, 0 < k -> Z.abs (rnd n k) <= Z.abs n.

End Float.

(** ** [config/tokens.ts] *)

(** The module-level constants of [config/tokens.ts]. The addresses, the
    network and the pool are read from [process.env] once, when the module is
    loaded, with the defaults below; the decimals are literals. *)
Record TokenConfig := {
  KIRK_TOKEN_ADDRESS : string;
  USDC_ADDRESS : string;
  KIRK_TREASURY_ADDRESS : string;
  NETWORK : string;
  KIRK_DEXSCREENER_POOL : string
}.

Definition default_tokens : TokenConfig := {|
  KIRK_TOKEN_ADDRESS := "0x73b83F8553480e8A8bb56B53618d5e70C8051e37";
  USDC_ADDRESS := "0x833589fCD6eDb6E08f4c7C32D4f71b54bdA02913";
  KIRK_TREASURY_ADDRESS := "0x54376e042acd7cf3bea1a40aff9c33b47e7ec5de";
  NETWORK := "eip155:8453";
  KIRK_DEXSCREENER_POOL := ""
|}.

Definition KIRK_TOKEN_DECIMALS : Z := 18.
Definition USDC_DECIMALS : Z := 6.

(** ** [config/pricing.ts] *)

Inductive Tier := free | light | standard | deep | signals.

Record EndpointPrice := { usdcPrice : JS.number; tier : Tier }.

Definition ENDPOINT_PRICES_entries : list (string * EndpointPrice) :=
  [ ("health", {| usdcPrice := JS.zero; tier := free |});
    ("models", {| usdcPrice := JS.zero; tier := free |});
    ("info", {| usdcPrice := JS.zero; tier := free |});
    ("summary", {| usdcPrice := JS.of_ratio 1 100; tier := light |});
    ("model-info", {| usdcPrice := JS.of_ratio 1 100; tier := light |});
    ("leaderboard", {| usdcPrice := JS.of_ratio 1 100; tier := light |});
    ("performance", {| usdcPrice := JS.of_ratio 5 100; tier := standard |});
    ("holdings", {| usdcPrice := JS.of_ratio 5 100; tier := standard |});
    ("holdings-top", {| usdcPrice := JS.of_ratio 5 100; tier := standard |});
    ("holding", {| usdcPrice := JS.of_ratio 5 100; tier := standard |});
    ("stats", {| usdcPrice := JS.of_ratio 5 100; tier := standard |});
    ("history-monthly", {| usdcPrice := JS.of_ratio 10 100; tier := deep |});
    ("tradebook", {| usdcPrice := JS.of_ratio 10 100; tier := deep |});
    ("positions", {| usdcPrice := JS.of_ratio 10 100; tier := deep |});
    ("compare", {| usdcPrice := JS.of_ratio 10 100; tier := deep |});
    ("trades-recent", {| usdcPrice := JS.of_ratio 10 100; tier := signals |});
    ("trades-filled", {| usdcPrice := JS.of_ratio 10 100; tier := signals |});
    ("trades-pending", {| usdcPrice := JS.of_ratio 10 100; tier := signals |}) ].

Definition ENDPOINT_PRICES : gmap string EndpointPrice :=
  list_to_map ENDPOINT_PRICES_entries.

(** [ENDPOINT_PRICES] is an object literal, so [ENDPOINT_PRICES[key]] also
    finds the members of [Object.prototype]. *)
Definition Object_prototype : list string :=
  [ "constructor"; "toString"; "toLocaleString"; "valueOf"; "hasOwnProperty";
    "isPrototypeOf"; "propertyIsEnumerable"; "__proto__"; "__defineGetter__";
    "__defineSetter__"; "__lookupGetter__"; "__lookupSetter__" ].

Inductive property :=
| Own (ep : EndpointPrice)
| Inherited
| Undefined.

Definition ENDPOINT_PRICES_get (key : string) : property :=
  match ENDPOINT_PRICES !! key with
  | Some ep => Own ep
  | None => if bool_decide (key ∈ Object_prototype) then Inherited else Undefined
  end.

(** ** [lib/payments.ts] *)

Definition KIRK_DISCOUNT : JS.number := JS.of_ratio 3 10.

Definition PAY_TO (cfg : TokenConfig) : string := KIRK_TREASURY_ADDRESS cfg.

Definition DEXSCREENER_API (cfg : TokenConfig) : string :=
  if String.eqb (KIRK_DEXSCREENER_POOL cfg) ""
  then "https://api.dexscreener.com/latest/dex/tokens/" ++ KIRK_TOKEN_ADDRESS cfg
  else "https://api.dexscreener.com/latest/dex/pairs/base/" ++ KIRK_DEXSCREENER_POOL cfg.

(** *** The DexScreener price feed *)

Record PriceCache := { priceUsd : JS.number; fetchedAt : Z }.

Definition PRICE_CACHE_TTL : Z := 5 * 60 * 1000.

Definition FLOOR_PRICE : JS.number := JS.of_ratio 3 10000000.

(** What the [try] block of [fetchKirkPrice] gets from the network: either
    one of [fetch], [response.json()] and [data.pair] throws, or
    [parseFloat(data.pair?.priceUsd || "0")] is evaluated. [parseFloat]
    returns any number: [NaN] for a string that is no number, an infinity for
    ["Infinity"] or for a literal beyond the binary64 range such as
    ["1e999"]. *)
Inductive FeedResponse :=
| FeedThrows (e : error)
| FeedPrice (parsed : JS.number).

(** The [try { ... } catch { ... }] statement: [Some priceUsd] when the
    block returns from the function, [None] when control falls out of the
    statement. The new value of [kirkPriceCache] comes with it. *)
Definition fetchKirkPrice_try (now : Z) (feed : FeedResponse)
    (kirkPriceCache : option PriceCache) : option JS.number * option PriceCache :=
  let block : completion (option JS.number * option PriceCache) :=
    match feed with
    | FeedThrows e => Throw e
    | FeedPrice priceUsd =>
        if JS.gt priceUsd JS.zero
        then Normal (Some priceUsd,
                     Some {| priceUsd := priceUsd; fetchedAt := now |})
        else Normal (None, kirkPriceCache)
    end in
  match block with
  | Normal r => r
  | Throw _ => (None, kirkPriceCache)
  end.

(** [kirkPriceCache?.priceUsd || 0.0000003] *)
Definition cached_or_floor (kirkPriceCache : option PriceCache) : JS.number :=
  match kirkPriceCache with
  | Some c => JS.or_else (priceUsd c) FLOOR_PRICE
  | None => FLOOR_PRICE
  end.

(** [fetchKirkPrice] from its [try] statement on. *)
Definition fetchKirkPrice_refetch (now : Z) (feed : FeedResponse)
    (kirkPriceCache : option PriceCache)
  : completion JS.number * option PriceCache :=
  match fetchKirkPrice_try now feed kirkPriceCache with
  | (Some priceUsd, cache') => (Normal priceUsd, cache')
  | (None, cache') => (Normal (cached_or_floor cache'), cache')
  end.

(** [fetchKirkPrice()] at time [now], in a world where the feed would answer
    [feed]; the second component is [kirkPriceCache] after the call. *)
Definition fetchKirkPrice (now : Z) (feed : FeedResponse)
    (kirkPriceCache : option PriceCache)
  : completion JS.number * option PriceCache :=
  match kirkPriceCache with
  | Some c =>
      if now - fetchedAt c <? PRICE_CACHE_TTL
      then (Normal (priceUsd c), kirkPriceCache)
      else fetchKirkPrice_refetch now feed kirkPriceCache
  | None => fetchKirkPrice_refetch now feed kirkPriceCache
  end.

(** [kirkPriceCache] after a history of calls [(now, feed)], the module
    having started with [null]. *)
Definition price_cache_after (calls : list (Z * FeedResponse)) : option PriceCache :=
  fold_left (fun cache call => snd (fetchKirkPrice (fst call) (snd call) cache))
            calls None.

(** What the cache holds, if anything, is a price with property [P] that
    passed the [> 0] test. *)
Definition cache_holds (P : JS.number -> Prop) (cache : option PriceCache) : Prop :=
  match cache with
  | Some c => JS.gt (priceUsd c) JS.zero = true /\ P (priceUsd c)
  | None => True
  end.

(** A price of the feed that passes the [> 0] test has property [P]. *)
Definition feed_holds (P : JS.number -> Prop) (feed : FeedResponse) : Prop :=
  match feed with
  | FeedPrice x => JS.gt x JS.zero = true -> P x
  | FeedThrows _ => True
  end.

(** The feed gave no usable price: a throw, or a parsed number that is not
    [> 0] ([0], a negative number, [NaN]). *)
Definition feed_fails (feed : FeedResponse) : Prop :=
  match feed with
  | FeedPrice x => JS.gt x JS.zero = false
  | FeedThrows _ => True
  end.

(** *** The quote calculation *)

Definition calculateKirkAmount (usdcPrice kirkPriceUsd : JS.number) : JS.number :=
  if JS.le kirkPriceUsd JS.zero then JS.zero
  else
    let discountedUsd := JS.mul usdcPrice (JS.sub JS.one KIRK_DISCOUNT) in
    JS.Math_ceil (JS.div discountedUsd kirkPriceUsd).

(** The USD value of [amount] tokens that trade at [kirkPriceUsd], as an
    exact rational. *)
Definition implied_usd (amount kirkPriceUsd : JS.number) : Q :=
  (JS.to_Q amount * JS.to_Q kirkPriceUsd)%Q.

Definition kirkToRaw (kirkAmount : JS.number) : completion string :=
  n ← JS.BigInt (JS.Math_floor (JS.mul kirkAmount (JS.pow10 KIRK_TOKEN_DECIMALS)));
  mret (JS.toString n).

Definition usdcToRaw (usdcAmount : JS.number) : completion string :=
  n ← JS.BigInt (JS.Math_round (JS.mul usdcAmount (JS.pow10 USDC_DECIMALS)));
  mret (JS.toString n).

(** *** The requirement builder *)

Inductive Scheme := exact | upto.

Record AssetExtra := { name : string; symbol : string; decimals : Z }.

Record Price := { asset : string; amount : string; extra : AssetExtra }.

Record Requirement := {
  scheme : Scheme;
  network : string;
  payTo : string;
  price : Price
}.

Definition usdc_requirement (cfg : TokenConfig) (amount : string) : Requirement := {|
  scheme := exact;
  network := NETWORK cfg;
  payTo := PAY_TO cfg;
  price := {| asset := USDC_ADDRESS cfg;
              amount := amount;
              extra := {| name := "USD Coin"; symbol := "USDC";
                          decimals := USDC_DECIMALS |} |}
|}.

Definition kirk_requirement (cfg : TokenConfig) (amount : string) : Requirement := {|
  scheme := upto;
  network := NETWORK cfg;
  payTo := PAY_TO cfg;
  price := {| asset := KIRK_TOKEN_ADDRESS cfg;
              amount := amount;
              extra := {| name := "Kirk"; symbol := "KIRK";
                          decimals := KIRK_TOKEN_DECIMALS |} |}
|}.

(** [ep.usdcPrice] of what [ENDPOINT_PRICES[endpointKey]] found: an
    inherited member has no such property, and [undefined] is [NaN] in
    arithmetic and differs from [0] under [===]. *)
Definition usdcPrice_of (ep : property) : JS.number :=
  match ep with
  | Own ep => usdcPrice ep
  | _ => JS.NaN
  end.

Definition dualTokenAccepts (cfg : TokenConfig) (endpointKey : string)
    (kirkPriceUsd : JS.number) : completion (list Requirement) :=
  let ep := ENDPOINT_PRICES_get endpointKey in
  match ep with
  | Undefined => mret []
  | _ =>
      if JS.strict_eq (usdcPrice_of ep) JS.zero then mret []
      else
        let kirkAmount := calculateKirkAmount (usdcPrice_of ep) kirkPriceUsd in
        usdc ← usdcToRaw (usdcPrice_of ep);
        kirk ← kirkToRaw kirkAmount;
        mret [usdc_requirement cfg usdc; kirk_requirement cfg kirk]
  end.

(** *** The routes table and the middleware *)

Record RouteConfig := {
  accepts : list Requirement;
  description : string;
  mimeType : string
}.

(** The entries of the object literal of [buildRoutesConfig], in source
    order: route pattern, endpoint key, description. *)
Definition route_table : list (string * string * string) :=
  [ ("GET /models/[model]/summary", "summary", "Quick model snapshot");
    ("GET /models/[model]/info", "model-info", "Model metadata");
    ("GET /leaderboard", "leaderboard", "Model performance leaderboard");
    ("GET /models/[model]/performance", "performance", "Full performance metrics");
    ("GET /models/[model]/holdings", "holdings", "All holdings with returns");
    ("GET /models/[model]/holdings/top", "holdings-top", "Top N holdings by return");
    ("GET /models/[model]/holdings/[ticker]", "holding",
       "Single holding detail + daily history");
    ("GET /models/[model]/stats", "stats", "Best/worst performers, averages");
    ("GET /models/[model]/history/monthly", "history-monthly",
       "Monthly returns + win/lose stats");
    ("GET /models/[model]/tradebook", "tradebook", "Full position ledger");
    ("GET /models/[model]/positions", "positions", "Open positions only");
    ("GET /compare", "compare", "Multi-model comparison");
    ("GET /models/[model]/trades/recent", "trades-recent", "Recent filled orders");
    ("GET /models/[model]/trades/filled", "trades-filled", "All filled orders");
    ("GET /models/[model]/trades/pending", "trades-pending", "Pending orders") ].

Definition pattern_of (entry : string * string * string) : string := fst (fst entry).

Definition build_route (cfg : TokenConfig) (kirkPriceUsd : JS.number)
    (entry : string * string * string) : completion (string * RouteConfig) :=
  let '(pattern, endpointKey, description) := entry in
  accepts ← dualTokenAccepts cfg endpointKey kirkPriceUsd;
  mret (pattern, {| accepts := accepts; description := description;
                    mimeType := "application/json" |}).

Definition buildRoutesConfig (cfg : TokenConfig) (kirkPriceUsd : JS.number)
  : completion (list (string * RouteConfig)) :=
  mapM (build_route cfg kirkPriceUsd) route_table.

(** What [createHonoPaymentMiddleware] is given: the [routes] object. The
    resource server and the upto module carry no prices. *)
Record Middleware := { routes : list (string * RouteConfig) }.

(** The process state the payment code owns: the module variable
    [kirkPriceCache] and, once created, the middleware. *)
Record Payments := {
  kirkPriceCache : option PriceCache;
  middleware : Middleware
}.

(** [createPaymentMiddleware()]: one price fetch, one routes table. *)
Definition createPaymentMiddleware (cfg : TokenConfig) (now : Z)
    (feed : FeedResponse) (cache : option PriceCache) : completion Payments :=
  let '(price, cache') := fetchKirkPrice now feed cache in
  kirkPriceUsd ← price;
  routes ← buildRoutesConfig cfg kirkPriceUsd;
  mret {| kirkPriceCache := cache'; middleware := {| routes := routes |} |}.

(** The callback of [setInterval]: it fetches the price and logs it; the
    routes object is not touched. (The handler of [/info] calls
    [fetchKirkPrice] too, with the same effect on the state.) *)
Definition refresh (now : Z) (feed : FeedResponse) (st : Payments) : Payments :=
  let '(_, cache') := fetchKirkPrice now feed (kirkPriceCache st) in
  {| kirkPriceCache := cache'; middleware := middleware st |}.

(** The process after a sequence of refresh ticks [(now, feed)]. *)
Definition refreshes (ticks : list (Z * FeedResponse)) (st : Payments) : Payments :=
  fold_left (fun st tick => refresh (fst tick) (snd tick) st) ticks st.

Fixpoint assoc {A} (key : string) (l : list (string * A)) : option A :=
  match l with
  | [] => None
  | (k, v) :: l => if String.eqb k key then Some v else assoc key l
  end.

(** The requirement set the middleware answers an unpaid request for
    [route] with: the [accepts] of the routes object it was created with. *)
Definition quote (st : Payments) (route : string) : option (list Requirement) :=
  accepts <$> assoc route (routes (middleware st)).

(** ** [lib/ksvc-client.ts] *)

(** *** The data cache *)

Record CacheEntry (T : Type) := { data : T; expires : Z }.
Arguments data {T} _.
Arguments expires {T} _.

Definition CACHE_TTL : Z := 60 * 60 * 1000.

(** [cachedFetch] up to its [await]: [Some data] when a live entry makes it
    return at once, [None] when it goes on to call [fetcher]. *)
Definition cachedFetch_cached {T} (now : Z) (key : string)
    (cache : gmap string (CacheEntry T)) : option T :=
  match cache !! key with
  | Some cached => if expires cached >? now then Some (data cached) else None
  | None => None
  end.

(** [cachedFetch] after its [await], when the promise of [fetcher()] has
    settled with [fetched] and the clock reads [now]. *)
Definition cachedFetch_resume {T} (now : Z) (key : string) (fetched : completion T)
    (cache : gmap string (CacheEntry T))
  : completion T * gmap string (CacheEntry T) :=
  match fetched with
  | Normal data =>
      (Normal data, <[key := {| data := data; expires := now + CACHE_TTL |}]> cache)
  | Throw e => (Throw e, cache)
  end.

(** The cache together with the number of times a fetcher was called. *)
Record Store (T : Type) := {
  cache : gmap string (CacheEntry T);
  fetches : nat
}.
Arguments cache {T} _.
Arguments fetches {T} _.

(** One call of [cachedFetch(key, fetcher)] run to its end with nothing in
    between: [fetcher()] would settle with [fetched], the clock reads [now]
    at the lookup and [now'] when the promise has settled. *)
Definition cachedFetch {T} (now now' : Z) (key : string) (fetched : completion T)
    (st : Store T) : completion T * Store T :=
  match cachedFetch_cached now key (cache st) with
  | Some data => (Normal data, st)
  | None =>
      let '(r, cache') := cachedFetch_resume now' key fetched (cache st) in
      (r, {| cache := cache'; fetches := S (fetches st) |})
  end.

(** *** Calls of [cachedFetch] that overlap

    JavaScript runs one callback at a time, and a call of [cachedFetch] gives
    way only at its [await]. A schedule is therefore a sequence of two kinds
    of events: a caller enters [cachedFetch] and runs up to the [await]
    (or to the [return] of a live entry), and the promise a suspended call
    waits for settles, which runs that call to its end. *)
Inductive Event (T : Type) :=
| Enter (caller : nat) (key : string) (now : Z)
| Settle (caller : nat) (fetched : completion T) (now : Z).
Arguments Enter {T} caller key now.
Arguments Settle {T} caller fetched now.

Record Scheduler (T : Type) := {
  store : Store T;
  suspended : gmap nat string;
  returned : gmap nat (completion T)
}.
Arguments store {T} _.
Arguments suspended {T} _.
Arguments returned {T} _.

Definition step {T} (s : Scheduler T) (ev : Event T) : Scheduler T :=
  match ev with
  | Enter caller key now =>
      match cachedFetch_cached now key (cache (store s)) with
      | Some data =>
          {| store := store s; suspended := suspended s;
             returned := <[caller := Normal data]> (returned s) |}
      | None =>
          {| store := {| cache := cache (store s);
                         fetches := S (fetches (store s)) |};
             suspended := <[caller := key]> (suspended s);
             returned := returned s |}
      end
  | Settle caller fetched now =>
      match suspended s !! caller with
      | Some key =>
          let '(r, cache') := cachedFetch_resume now key fetched (cache (store s)) in
          {| store := {| cache := cache'; fetches := fetches (store s) |};
             suspended := delete caller (suspended s);
             returned := <[caller := r]> (returned s) |}
      | None => s
      end
  end.

Definition run {T} (s : Scheduler T) (evs : list (Event T)) : Scheduler T :=
  fold_left step evs s.

Definition idle {T} (st : Store T) : Scheduler T :=
  {| store := st; suspended := ∅; returned := ∅ |}.

(** The events of callers that enter one after the other, and of their
    promises settling one after the other. *)
Definition enter_events {T} (key : string) (enter_at : nat -> Z)
    (callers : list nat) : list (Event T) :=
  (fun c => Enter c key (enter_at c)) <$> callers.

Definition settle_events {T} (settle_at : nat -> Z) (fetched : nat -> completion T)
    (callers : list nat) : list (Event T) :=
  (fun c => Settle c (fetched c) (settle_at c)) <$> callers.

(** *** Model data and the recent-trades view *)

Record KsvcFilledOrder := {
  fo_ticker : string;
  fo_action : string;
  fo_quantity : JS.number;
  fo_price : JS.number;
  fo_date : string;
  fo_comment : option string;
  fo_fee : option JS.number
}.

(** The fields of [KsvcModelData] the trade views read. The data is parsed
    JSON, so a field can be missing: [None] is [undefined]. *)
Record KsvcModelData := {
  filledOrders : option (list KsvcFilledOrder);
  last_date : option string
}.

(** What [fetch(`${KSVC_API_BASE}/${model}`)] and [response.json()] give. *)
Inductive Upstream :=
| FetchRejects (e : error)
| Response (ok : bool) (status : Z) (json : completion KsvcModelData).

(** The fetcher [fetchModelData] passes to [cachedFetch]. *)
Definition fetchModelData_fetcher (up : Upstream) : completion KsvcModelData :=
  match up with
  | FetchRejects e => Throw e
  | Response ok status json =>
      if negb ok then Throw (Error ("KSVC API error: " ++ JS.toString status))
      else json
  end.

(** [fetchModelData(model)] when upstream would answer [up]; the clock
    reads [now] at the cache lookup and [now'] when the fetch has settled. *)
Definition fetchModelData (now now' : Z) (model : string) (up : Upstream)
    (st : Store KsvcModelData) : completion KsvcModelData * Store KsvcModelData :=
  cachedFetch now now' ("model:" ++ model) (fetchModelData_fetcher up) st.

Record RecentTrades := {
  rt_model : string;
  recentTrades : list KsvcFilledOrder;
  rt_count : nat;
  rt_last_date : option string;
  rt_timestamp : string
}.

(** [x || null] on an optional string: the empty string is falsy. *)
Definition or_null (x : option string) : option string :=
  match x with
  | Some s => if String.eqb s "" then None else Some s
  | None => None
  end.

(** [filled.slice(0, 20)] *)
Definition slice_0_20 {A} (l : list A) : list A := take 20 l.

Definition getRecentTrades (now now' : Z) (timestamp : string) (model : string)
    (up : Upstream) (st : Store KsvcModelData)
  : completion RecentTrades * Store KsvcModelData :=
  let '(fetched, st') := fetchModelData now now' model up st in
  (data ← fetched;
   let filled := default [] (filledOrders data) in
   mret {| rt_model := model;
           recentTrades := slice_0_20 filled;
           rt_count := Nat.min 20 (length filled);
           rt_last_date := or_null (last_date data);
           rt_timestamp := timestamp |},
   st').

(* ===================================================================== *)
(** * Part II: properties                                                 *)
(* ===================================================================== *)

(** ** Binary64 arithmetic

    What the claims need of [SpecFloat]: the sign of a product and of a
    quotient, the size of a rounded mantissa, and that the integral
    numbers [Math.floor], [Math.ceil] and [Math.round] return are read back
    by [BigInt] without loss. *)

Module FloatFacts.

Import JS Float.

(** The literals of the source as binary64 values: [0.3] is
    [0x3FD3333333333333], [1 - 0.3] is the number [0.7], and [10 ** 18] is
    exact. *)
Example literals :
  of_ratio 3 10 = S754_finite false 5404319552844595 (-54) /\
  sub one (of_ratio 3 10) = of_ratio 7 10 /\
  of_ratio 3 10000000 = S754_finite false 5666839779443574 (-74) /\
  pow10 18 = S754_finite false 7812500000000000 7 /\
  BigInt (pow10 18) = Normal (10 ^ 18).
Proof. vm_compute. repeat split; reflexivity. Qed.

(** [Math.round] rounds a tie up, and a zero result keeps the sign;
    [BigInt] rejects what is not an integer. *)
Example rounding :
  Math_round (of_ratio 25 10) = of_Z 3 /\
  Math_round (SFopp (of_ratio 25 10)) = of_Z (-2) /\
  Math_round (SFopp (of_ratio 5 10)) = S754_zero true /\
  Math_ceil (SFopp (of_ratio 5 10)) = S754_zero true /\
  Math_floor (SFopp (of_ratio 5 10)) = of_Z (-1) /\
  Math_ceil (of_ratio 1166666 10) = of_Z 116667 /\
  Math_floor Infinity = Infinity /\
  BigInt (of_ratio 15 10) = Throw not_an_integer /\
  BigInt Infinity = Throw not_an_integer /\
  BigInt NaN = Throw not_an_integer /\
  BigInt (S754_zero true) = Normal 0.
Proof. vm_compute. repeat split; reflexivity. Qed.

Lemma digits2_pos_bounds (m : positive) :
  2 ^ (Zpos (digits2_pos m) - 1) <= Zpos m < 2 ^ Zpos (digits2_pos m).
Proof.
  induction m as [m IH | m IH |]; simpl digits2_pos.
  - rewrite Pos2Z.inj_succ.
    replace (Z.succ (Zpos (digits2_pos m)) - 1) with (Z.succ (Zpos (digits2_pos m) - 1)) by lia.
    rewrite !Z.pow_succ_r by lia. lia.
  - rewrite Pos2Z.inj_succ.
    replace (Z.succ (Zpos (digits2_pos m)) - 1) with (Z.succ (Zpos (digits2_pos m) - 1)) by lia.
    rewrite !Z.pow_succ_r by lia. lia.
  - simpl. lia.
Qed.

Lemma shr_1_m (mrs : shr_record) :
  0 <= shr_m mrs -> shr_m (shr_1 mrs) = shr_m mrs / 2.
Proof.
  destruct mrs as [m r s]; simpl shr_m; intros Hm.
  destruct m as [| p | p]; [reflexivity | | lia].
  destruct p as [p | p |]; simpl shr_m.
  - rewrite Pos2Z.inj_xI. apply Z.div_unique with 1; lia.
  - rewrite Pos2Z.inj_xO. apply Z.div_unique with 0; lia.
  - reflexivity.
Qed.

Lemma iter_shr_1_m (p : positive) (mrs : shr_record) :
  0 <= shr_m mrs -> shr_m (SpecFloat.iter_pos shr_1 p mrs) = shr_m mrs / 2 ^ Zpos p.
Proof.
  revert mrs.
  induction p as [p IH | p IH |]; intros mrs Hm; simpl SpecFloat.iter_pos.
  - assert (H1 : 0 <= shr_m (shr_1 mrs)).
    { rewrite shr_1_m by done. apply Z.div_pos; lia. }
    assert (H2 : 0 <= shr_m (SpecFloat.iter_pos shr_1 p (shr_1 mrs))).
    { rewrite IH by done. apply Z.div_pos; [done | apply Z.pow_pos_nonneg; lia]. }
    rewrite IH, IH, shr_1_m by done.
    rewrite !Z.div_div by (try apply Z.pow_pos_nonneg; lia).
    f_equal.
    replace (Zpos p~1) with (1 + Zpos p + Zpos p) by lia.
    rewrite !Z.pow_add_r by lia. lia.
  - assert (H2 : 0 <= shr_m (SpecFloat.iter_pos shr_1 p mrs)).
    { rewrite IH by done. apply Z.div_pos; [done | apply Z.pow_pos_nonneg; lia]. }
    rewrite IH, IH by done.
    rewrite !Z.div_div by (try apply Z.pow_pos_nonneg; lia).
    f_equal.
    replace (Zpos p~0) with (Zpos p + Zpos p) by lia.
    rewrite !Z.pow_add_r by lia. lia.
  - rewrite shr_1_m by done. reflexivity.
Qed.

Lemma Zdigits2_bound (m : Z) : 0 <= m -> 0 <= Zdigits2 m /\ m < 2 ^ Zdigits2 m.
Proof.
  destruct m as [| p | p]; simpl; [lia | | lia].
  intros _. pose proof (digits2_pos_bounds p). lia.
Qed.

Lemma shr_record_of_loc_m (m : Z) (l : location) :
  shr_m (shr_record_of_loc m l) = m.
Proof. destruct l as [| []]; reflexivity. Qed.

(** After [shr_fexp] the mantissa fits in 53 bits and the exponent is at
    least that of the subnormal numbers. *)
Lemma shr_fexp_bound (m e : Z) (l : location) :
  0 <= m ->
  0 <= shr_m (fst (shr_fexp prec emax m e l)) < 2 ^ 53 /\
  -1074 <= snd (shr_fexp prec emax m e l).
Proof.
  intros Hm. destruct (Zdigits2_bound m Hm) as [Hd Hlt].
  unfold shr_fexp, shr, fexp, emin, prec, emax.
  set (d := Zdigits2 m) in *.
  destruct (Z.max (d + e - 53) (3 - 1024 - 53) - e) as [| n | n] eqn:Hn; simpl fst; simpl snd.
  - rewrite shr_record_of_loc_m. split; [split; [done |] | lia].
    apply Z.lt_le_trans with (2 ^ d); [done |]. apply Z.pow_le_mono_r; lia.
  - rewrite iter_shr_1_m by (rewrite shr_record_of_loc_m; done).
    rewrite shr_record_of_loc_m. split; [split |]; [| | lia].
    + apply Z.div_pos; [done | apply Z.pow_pos_nonneg; lia].
    + apply Z.div_lt_upper_bound; [apply Z.pow_pos_nonneg; lia |].
      rewrite <- Z.pow_add_r by lia.
      apply Z.lt_le_trans with (2 ^ d); [done |]. apply Z.pow_le_mono_r; lia.
  - rewrite shr_record_of_loc_m. split; [split; [done |] | lia].
    apply Z.lt_le_trans with (2 ^ d); [done |]. apply Z.pow_le_mono_r; lia.
Qed.

Lemma round_nearest_even_bound (m : Z) (l : location) :
  0 <= m -> 0 <= round_nearest_even m l.
Proof.
  intros Hm. destruct l as [| []]; simpl; try done; try lia.
  destruct (Z.even m); lia.
Qed.

Lemma binary_round_aux_rounded (s : bool) (m e : Z) (l : location) :
  0 <= m -> rounded s (binary_round_aux prec emax s m e l).
Proof.
  intros Hm. unfold binary_round_aux.
  pose proof (shr_fexp_bound m e l Hm) as [Hm1 He1].
  destruct (shr_fexp prec emax m e l) as [mrs1 e1]; simpl fst in *; simpl snd in *.
  set (m1 := round_nearest_even (shr_m mrs1) (loc_of_shr_record mrs1)).
  assert (Hm1' : 0 <= m1) by (apply round_nearest_even_bound; lia).
  pose proof (shr_fexp_bound m1 e1 loc_Exact Hm1') as [Hm2 He2].
  destruct (shr_fexp prec emax m1 e1 loc_Exact) as [mrs2 e2];
    simpl fst in *; simpl snd in *.
  destruct (shr_m mrs2) as [| m2 | m2]; [constructor | | lia].
  unfold emax, prec. destruct (Z.leb_spec e2 (1024 - 53)); constructor; lia.
Qed.

Lemma mul_rounded (x y : number) :
  mul x y = NaN \/ rounded (xorb (sign x) (sign y)) (mul x y).
Proof.
  destruct x as [sx | sx | | sx mx ex], y as [sy | sy | | sy my ey];
    simpl; try (left; reflexivity); try (right; constructor).
  right. apply binary_round_aux_rounded. lia.
Qed.

Lemma div_rounded (x y : number) :
  div x y = NaN \/ rounded (xorb (sign x) (sign y)) (div x y).
Proof.
  destruct x as [sx | sx | | sx mx ex], y as [sy | sy | | sy my ey];
    simpl; try (left; reflexivity); try (right; constructor).
  right. unfold SFdiv_core_binary.
  match goal with
  | |- context [Z.div_eucl ?a ?b] =>
      assert (Ha : 0 <= a); [| pose proof (Z_div_mod a b ltac:(lia)) as Hqr;
                               destruct (Z.div_eucl a b) as [q r]]
  end.
  { destruct (_ - _ - _) as [| n | n]; [lia | | lia].
    rewrite Z.shiftl_mul_pow2 by lia.
    apply Z.mul_nonneg_nonneg; [lia | apply Z.pow_nonneg; lia]. }
  apply binary_round_aux_rounded. nia.
Qed.

Lemma Zdigits2_lower (m : Z) : 1 <= m -> 2 ^ (Zdigits2 m - 1) <= m.
Proof.
  destruct m as [| p | p]; simpl; [lia | | lia].
  intros _. pose proof (digits2_pos_bounds p). lia.
Qed.

(** [shr_fexp] divides the mantissa by the power of two it adds to the
    exponent. *)
Lemma shr_fexp_shift (m e : Z) (l : location) :
  0 <= m ->
  let n := Z.max 0 (fexp prec emax (Zdigits2 m + e) - e) in
  shr_m (fst (shr_fexp prec emax m e l)) = m / 2 ^ n /\
  snd (shr_fexp prec emax m e l) = e + n.
Proof.
  intros Hm n. unfold shr_fexp, shr. subst n.
  destruct (fexp prec emax (Zdigits2 m + e) - e) as [| k | k]; simpl fst; simpl snd.
  - rewrite shr_record_of_loc_m. simpl. rewrite Z.div_1_r. lia.
  - rewrite iter_shr_1_m by (rewrite shr_record_of_loc_m; done).
    rewrite shr_record_of_loc_m. rewrite Z.max_r by lia. done.
  - rewrite shr_record_of_loc_m. simpl. rewrite Z.div_1_r. lia.
Qed.

Lemma round_nearest_even_range (m : Z) (l : location) :
  m <= round_nearest_even m l <= m + 1.
Proof. destruct l as [| []]; simpl; try lia. destruct (Z.even m); lia. Qed.

(** A shift that leaves the leading bit in place leaves a mantissa of at
    least one. *)
Lemma shift_keeps_leading_bit (m n : Z) :
  1 <= m -> 0 <= n <= Zdigits2 m - 1 -> 1 <= m / 2 ^ n.
Proof.
  intros Hm Hn. pose proof (Zdigits2_lower m Hm) as Hlo.
  assert (H : 2 ^ n <= m).
  { apply Z.le_trans with (2 ^ (Zdigits2 m - 1)); [| done].
    apply Z.pow_le_mono_r; lia. }
  apply Z.div_le_lower_bound; [apply Z.pow_pos_nonneg; lia | lia].
Qed.

(** Rounding a non-zero mantissa whose exponent is neither below the
    subnormal range nor too close to the top gives a finite, non-zero
    number. *)
Lemma binary_round_aux_finite (s : bool) (m e : Z) (l : location) :
  1 <= m -> -1074 <= e -> e + Z.max 0 (Zdigits2 m - 53) + 1 <= 971 ->
  exists m' e',
    binary_round_aux prec emax s m e l = S754_finite s m' e' /\
    Zpos m' < 2 ^ 53 /\ e <= e' <= e + Z.max 0 (Zdigits2 m - 53) + 1.
Proof.
  intros Hm He Htop. unfold binary_round_aux.
  destruct (Zdigits2_bound m ltac:(lia)) as [Hd _].
  pose proof (Zdigits2_lower m Hm) as Hdlo.
  assert (Hd1 : 1 <= Zdigits2 m).
  { destruct (Z.le_gt_cases 1 (Zdigits2 m)); [done |].
    destruct m; simpl in *; lia. }
  pose proof (shr_fexp_bound m e l ltac:(lia)) as [Hm1 _].
  pose proof (shr_fexp_shift m e l ltac:(lia)) as [Hv1 He1].
  destruct (shr_fexp prec emax m e l) as [mrs1 e1]; simpl fst in *; simpl snd in *.
  assert (Hn1 : Z.max 0 (fexp prec emax (Zdigits2 m + e) - e) = Z.max 0 (Zdigits2 m - 53)).
  { unfold fexp, emin, prec, emax. lia. }
  rewrite Hn1 in Hv1, He1.
  assert (Hm1' : 1 <= shr_m mrs1).
  { rewrite Hv1. apply shift_keeps_leading_bit; lia. }
  set (m1 := round_nearest_even (shr_m mrs1) (loc_of_shr_record mrs1)).
  pose proof (round_nearest_even_range (shr_m mrs1) (loc_of_shr_record mrs1)) as Hr.
  fold m1 in Hr.
  destruct (Zdigits2_bound m1 ltac:(lia)) as [Hd2 _].
  pose proof (Zdigits2_lower m1 ltac:(lia)) as Hd2lo.
  assert (Hd2' : 1 <= Zdigits2 m1 <= 54).
  { split.
    - destruct (Z.le_gt_cases 1 (Zdigits2 m1)); [done |].
      destruct m1; simpl in *; lia.
    - destruct (Z.le_gt_cases (Zdigits2 m1) 54) as [| Hgt]; [done |].
      assert (2 ^ 54 <= 2 ^ (Zdigits2 m1 - 1)) by (apply Z.pow_le_mono_r; lia).
      lia. }
  pose proof (shr_fexp_shift m1 e1 loc_Exact ltac:(lia)) as [Hv2 He2].
  pose proof (shr_fexp_bound m1 e1 loc_Exact ltac:(lia)) as [Hm2' _].
  destruct (shr_fexp prec emax m1 e1 loc_Exact) as [mrs2 e2];
    simpl fst in *; simpl snd in *.
  assert (Hn2 : 0 <= Z.max 0 (fexp prec emax (Zdigits2 m1 + e1) - e1) <= 1
                /\ Z.max 0 (fexp prec emax (Zdigits2 m1 + e1) - e1) <= Zdigits2 m1 - 1).
  { unfold fexp, emin, prec, emax. lia. }
  assert (Hm2 : 1 <= shr_m mrs2).
  { rewrite Hv2. apply shift_keeps_leading_bit; lia. }
  destruct (shr_m mrs2) as [| m2 | m2]; [lia | | lia].
  unfold emax, prec. destruct (Z.leb_spec e2 (1024 - 53)); [| lia].
  eexists _, _. split; [reflexivity |]. lia.
Qed.

(** The quotient of two positive normal numbers is finite and not zero
    unless their exponents are very far apart. *)
Lemma div_normal (mx my : positive) (ex ey : Z) :
  Zpos (digits2_pos mx) = 53 -> Zpos (digits2_pos my) = 53 ->
  -1074 < ex - ey <= 1020 ->
  exists m e,
    div (S754_finite false mx ex) (S754_finite false my ey) = S754_finite false m e /\
    Zpos m < 2 ^ 53 /\ -1074 <= e <= Z.max (ex - ey - 53) (-1074) + 2.
Proof.
  intros Hdx Hdy HD. unfold div, SFdiv, SFdiv_core_binary. simpl Zdigits2.
  rewrite Hdx, Hdy.
  pose proof (digits2_pos_bounds mx) as Hx. pose proof (digits2_pos_bounds my) as Hy.
  rewrite Hdx in Hx. rewrite Hdy in Hy.
  set (e' := Z.min (fexp prec emax (53 + ex - (53 + ey))) (ex - ey)).
  assert (He' : e' = Z.max (ex - ey - 53) (-1074)).
  { unfold e', fexp, emin, prec, emax. lia. }
  assert (Hs : 0 < ex - ey - e' <= 53) by lia.
  destruct (ex - ey - e') as [| k | k] eqn:Hk; [lia | | lia].
  rewrite Z.shiftl_mul_pow2 by lia.
  assert (HP : 2 <= 2 ^ Zpos k).
  { change 2 with (2 ^ 1) at 1. apply Z.pow_le_mono_r; lia. }
  pose proof (Z_div_mod (Zpos mx * 2 ^ Zpos k) (Zpos my) ltac:(lia)) as Hqr.
  destruct (Z.div_eucl (Zpos mx * 2 ^ Zpos k) (Zpos my)) as [q r].
  destruct Hqr as [Hq Hr]. simpl xorb.
  assert (Hq1 : 1 <= q) by nia.
  assert (Hq2 : q < 2 ^ (Zpos k + 1)).
  { rewrite Z.pow_add_r, Z.pow_1_r by lia.
    change (2 ^ (53 - 1)) with 4503599627370496 in *.
    change (2 ^ 53) with 9007199254740992 in *. nia. }
  assert (Hdq : Zdigits2 q <= Zpos k + 1).
  { pose proof (Zdigits2_lower q Hq1) as Hlo.
    destruct (Z.le_gt_cases (Zdigits2 q) (Zpos k + 1)) as [| Hgt]; [done |].
    assert (2 ^ (Zpos k + 1) <= 2 ^ (Zdigits2 q - 1)) by (apply Z.pow_le_mono_r; lia).
    lia. }
  destruct (binary_round_aux_finite false q e' (new_location (Zpos my) r))
    as (m & e & Hres & Hm & He); [lia | lia | lia |].
  exists m, e. split; [exact Hres |]. lia.
Qed.

(** A mantissa of exactly 53 bits with an exponent in range is a number
    as it stands. *)
Lemma binary_round_aux_canonical (s : bool) (m : positive) (e : Z) :
  Zpos (digits2_pos m) = 53 -> -1074 <= e <= 971 ->
  binary_round_aux prec emax s (Zpos m) e loc_Exact = S754_finite s m e.
Proof.
  intros Hd He. unfold binary_round_aux, shr_fexp, fexp, emin, prec, emax.
  simpl Zdigits2. rewrite Hd.
  replace (Z.max (53 + e - 53) (3 - 1024 - 53) - e) with 0 by lia.
  simpl. rewrite Hd.
  replace (Z.max (53 + e - 53) (3 - 1024 - 53) - e) with 0 by lia.
  simpl. destruct (Z.leb_spec e (1024 - 53)); [reflexivity | lia].
Qed.

Lemma iter_xO (m k : positive) :
  Zpos (Pos.iter xO m k) = Zpos m * 2 ^ Zpos k /\
  Zpos (digits2_pos (Pos.iter xO m k)) = Zpos (digits2_pos m) + Zpos k.
Proof.
  induction k as [| k IH] using Pos.peano_ind.
  - simpl. lia.
  - rewrite Pos.iter_succ. simpl digits2_pos.
    rewrite Pos2Z.inj_xO, !Pos2Z.inj_succ, Z.pow_succ_r by lia. lia.
Qed.

(** An integer below [2^53] becomes a number by a shift of its digits to
    the top of the mantissa. *)
Lemma binary_round_small (sx : bool) (m : positive) :
  Zpos m < 2 ^ 53 ->
  exists (m' : positive) (k : Z),
    binary_round prec emax sx m 0 = S754_finite sx m' (- k) /\
    0 <= k <= 52 /\ Zpos m' = Zpos m * 2 ^ k /\ Zpos (digits2_pos m') = 53.
Proof.
  intros Hm. pose proof (digits2_pos_bounds m) as [Hlo _].
  assert (Hd : Zpos (digits2_pos m) <= 53).
  { destruct (Z.le_gt_cases (Zpos (digits2_pos m)) 53) as [| Hgt]; [done |].
    assert (2 ^ 53 <= 2 ^ (Zpos (digits2_pos m) - 1))
      by (apply Z.pow_le_mono_r; lia). lia. }
  unfold binary_round, shl_align, fexp, emin, prec, emax.
  replace (Z.max (Zpos (digits2_pos m) + 0 - 53) (3 - 1024 - 53) - 0)
    with (Zpos (digits2_pos m) - 53) by lia.
  replace (Z.max (Zpos (digits2_pos m) + 0 - 53) (3 - 1024 - 53))
    with (Zpos (digits2_pos m) - 53) by lia.
  destruct (Zpos (digits2_pos m) - 53) as [| k | k] eqn:Hk; [| lia |].
  - pose proof (binary_round_aux_canonical sx m 0 ltac:(lia) ltac:(lia)) as Hc.
    unfold prec, emax in Hc. rewrite Hc.
    exists m, 0. split; [reflexivity |]. simpl. lia.
  - destruct (iter_xO m k) as [Hv Hdg].
    pose proof (binary_round_aux_canonical sx (Pos.iter xO m k) (Zneg k)
                  ltac:(lia) ltac:(lia)) as Hc.
    unfold prec, emax in Hc. rewrite Hc.
    exists (Pos.iter xO m k), (Zpos k). split; [reflexivity |]. lia.
Qed.

(** An integer below [2^53] is a number, and [BigInt] reads it back. *)
Lemma BigInt_binary_normalize (z : Z) (s : bool) :
  z <> 0 -> Z.abs z < 2 ^ 53 ->
  BigInt (binary_normalize prec emax z 0 s) = Normal z.
Proof.
  intros Hz Hlt.
  assert (H : forall sx (m : positive), Zpos m < 2 ^ 53 ->
           BigInt (binary_round prec emax sx m 0) = Normal (cond_Zopp sx (Zpos m))).
  { clear. intros sx m Hm.
    destruct (binary_round_small sx m Hm) as (m' & k & -> & Hk & Hv & _).
    unfold BigInt. destruct (Z.leb_spec 0 (- k)).
    - replace k with 0 in * by lia. rewrite Hv. simpl. do 2 f_equal. lia.
    - rewrite Z.opp_involutive, Hv.
      assert (0 < 2 ^ k) by (apply Z.pow_pos_nonneg; lia).
      rewrite Z_mod_mult, Z_div_mult by lia. reflexivity. }
  unfold binary_normalize. destruct z as [| m | m]; [done | |].
  - apply (H false). lia.
  - apply (H true). lia.
Qed.

Lemma rounded_small (s : bool) (x : number) : rounded s x -> small x.
Proof. destruct 1; simpl; done. Qed.

Lemma floor_div_contracting : contracting floor_div.
Proof.
  intros n k Hk. unfold floor_div.
  assert (HP : 2 <= 2 ^ k).
  { change 2 with (2 ^ 1) at 1. apply Z.pow_le_mono_r; lia. }
  pose proof (Z_div_mod_eq_full n (2 ^ k)) as Heq.
  pose proof (Z.mod_pos_bound n (2 ^ k) ltac:(lia)) as Hr.
  nia.
Qed.

Lemma ceil_div_contracting : contracting ceil_div.
Proof.
  intros n k Hk. unfold ceil_div.
  pose proof (floor_div_contracting (- n) k Hk) as H. unfold floor_div in H. lia.
Qed.

Lemma round_div_contracting : contracting round_div.
Proof.
  intros n k Hk. unfold round_div.
  assert (HP : 2 <= 2 ^ k).
  { change 2 with (2 ^ 1) at 1. apply Z.pow_le_mono_r; lia. }
  rewrite Z.pow_add_r, Z.pow_1_r by lia.
  pose proof (Z_div_mod_eq_full (2 * n + 2 ^ k) (2 ^ k * 2)) as Heq.
  pose proof (Z.mod_pos_bound (2 * n + 2 ^ k) (2 ^ k * 2) ltac:(lia)) as Hr.
  nia.
Qed.

(** [BigInt(Math.floor(x))] and its siblings never throw on a finite
    number, and return the integer the rounding computes. *)
Lemma BigInt_integral (rnd : Z -> Z -> Z) (x : number) :
  contracting rnd -> is_finite x = true -> small x ->
  BigInt (integral rnd x) = Normal (integer_of rnd x).
Proof.
  intros Hrnd Hfin Hsmall.
  destruct x as [s | s | | s m e]; try discriminate; [reflexivity |].
  simpl in Hsmall. unfold integral, integer_of.
  destruct (Z.leb_spec 0 e) as [He | He].
  - simpl. destruct (Z.leb_spec 0 e); [reflexivity | lia].
  - set (z := rnd (cond_Zopp s (Zpos m)) (- e)).
    assert (Hz : Z.abs z <= Zpos m).
    { pose proof (Hrnd (cond_Zopp s (Zpos m)) (- e) ltac:(lia)) as H.
      fold z in H. destruct s; simpl in H; lia. }
    destruct (Z.eqb_spec z 0) as [-> | Hnz]; [reflexivity |].
    apply BigInt_binary_normalize; [done | lia].
Qed.

(** A number [BigInt] accepts stands for the integer [BigInt] returns. *)
Lemma to_Q_BigInt (x : number) (n : Z) :
  BigInt x = Normal n -> (to_Q x == inject_Z n)%Q.
Proof.
  destruct x as [s | s | | s m e]; simpl; try discriminate.
  - intros [= <-]. reflexivity.
  - destruct (Z.leb_spec 0 e) as [He | He].
    + intros [= <-]. reflexivity.
    + assert (HP : 0 < 2 ^ (- e)) by (apply Z.pow_pos_nonneg; lia).
      destruct (Z.eqb_spec (Zpos m mod 2 ^ (- e)) 0) as [Hmod | Hmod]; [| discriminate].
      intros [= <-]. unfold Qeq, inject_Z. simpl Qnum. simpl Qden.
      rewrite Z2Pos.id by done.
      pose proof (Z_div_mod_eq_full (Zpos m) (2 ^ (- e))) as Heq.
      destruct s; simpl cond_Zopp; nia.
Qed.

(** [Math.ceil] of a positive number is a positive number, and no larger in
    exponent than the number or an integer below [2^53]. *)
Lemma Math_ceil_positive (m : positive) (e : Z) :
  Zpos m < 2 ^ 53 ->
  exists m' e',
    Math_ceil (S754_finite false m e) = S754_finite false m' e' /\
    Zpos m' < 2 ^ 53 /\ -52 <= e' <= Z.max e 0.
Proof.
  intros Hm. unfold Math_ceil, integral.
  destruct (Z.leb_spec 0 e) as [He | He].
  { exists m, e. repeat split; lia. }
  simpl cond_Zopp.
  assert (HP : 0 < 2 ^ (- e)) by (apply Z.pow_pos_nonneg; lia).
  pose proof (ceil_div_contracting (Zpos m) (- e) ltac:(lia)) as Hc.
  assert (H1 : 1 <= ceil_div (Zpos m) (- e)).
  { unfold ceil_div.
    pose proof (Z_div_mod_eq_full (- Zpos m) (2 ^ (- e))) as Heq.
    pose proof (Z.mod_pos_bound (- Zpos m) (2 ^ (- e)) HP) as Hr. nia. }
  destruct (Z.eqb_spec (ceil_div (Zpos m) (- e)) 0) as [| _]; [lia |].
  destruct (ceil_div (Zpos m) (- e)) as [| z | z]; [lia | | lia].
  unfold binary_normalize.
  destruct (binary_round_small false z ltac:(lia)) as (m' & k & -> & Hk & Hv & Hd).
  exists m', (- k). pose proof (digits2_pos_bounds m') as Hb. rewrite Hd in Hb.
  repeat split; lia.
Qed.

(** A product of two numbers is finite while the sum of their exponents
    leaves room for the 53 bits the product of the mantissas can add. *)
Lemma mul_finite (ma mb : positive) (ea eb : Z) :
  Zpos ma < 2 ^ 53 -> Zpos mb < 2 ^ 53 -> -1074 <= ea + eb <= 917 ->
  is_finite (mul (S754_finite false ma ea) (S754_finite false mb eb)) = true.
Proof.
  intros Ha Hb He. unfold mul, SFmul. simpl xorb.
  assert (Hd : Zdigits2 (Zpos (ma * mb)) <= 106).
  { pose proof (Zdigits2_lower (Zpos (ma * mb)) ltac:(lia)) as Hlo.
    destruct (Z.le_gt_cases (Zdigits2 (Zpos (ma * mb))) 106) as [| Hgt]; [done |].
    assert (2 ^ 106 <= 2 ^ (Zdigits2 (Zpos (ma * mb)) - 1))
      by (apply Z.pow_le_mono_r; lia).
    change (2 ^ 106) with (2 ^ 53 * 2 ^ 53) in *. nia. }
  destruct (binary_round_aux_finite false (Zpos (ma * mb)) (ea + eb) loc_Exact)
    as (m & e & -> & _); [lia | lia | lia | reflexivity].
Qed.

End FloatFacts.

(** ** The pricing registry *)

Lemma ENDPOINT_PRICES_elem (key : string) (ep : EndpointPrice) :
  ENDPOINT_PRICES !! key = Some ep -> (key, ep) ∈ ENDPOINT_PRICES_entries.
Proof. apply elem_of_list_to_map_2. Qed.

(** The registry holds four prices. *)
Lemma ENDPOINT_PRICES_prices (key : string) (ep : EndpointPrice) :
  ENDPOINT_PRICES !! key = Some ep ->
  usdcPrice ep = JS.zero \/ usdcPrice ep = JS.of_ratio 1 100 \/
  usdcPrice ep = JS.of_ratio 5 100 \/ usdcPrice ep = JS.of_ratio 10 100.
Proof.
  intros H%ENDPOINT_PRICES_elem. unfold ENDPOINT_PRICES_entries in H.
  repeat (apply elem_of_cons in H as [[= _ ->] | H]; [simpl; tauto |]).
  by apply elem_of_nil in H.
Qed.

Lemma dualTokenAccepts_own (cfg : TokenConfig) (key : string) (ep : EndpointPrice)
    (p : JS.number) :
  ENDPOINT_PRICES !! key = Some ep ->
  dualTokenAccepts cfg key p =
    if JS.strict_eq (usdcPrice ep) JS.zero then Normal []
    else
      usdc ← usdcToRaw (usdcPrice ep);
      kirk ← kirkToRaw (calculateKirkAmount (usdcPrice ep) p);
      Normal [usdc_requirement cfg usdc; kirk_requirement cfg kirk].
Proof.
  intros H. unfold dualTokenAccepts, ENDPOINT_PRICES_get. rewrite H. reflexivity.
Qed.

Lemma calculateKirkAmount_nonpositive (usdcPrice p : JS.number) :
  JS.le p JS.zero = true -> calculateKirkAmount usdcPrice p = JS.zero.
Proof. intros H. unfold calculateKirkAmount. rewrite H. reflexivity. Qed.

Lemma usdcToRaw_registry (key : string) (ep : EndpointPrice) :
  ENDPOINT_PRICES !! key = Some ep ->
  JS.gt (usdcPrice ep) JS.zero = true ->
  JS.strict_eq (usdcPrice ep) JS.zero = false /\
  exists usdc, usdcToRaw (usdcPrice ep) = Normal usdc /\
    usdc ∈ ["10000"; "50000"; "100000"].
Proof.
  intros H Hgt.
  destruct (ENDPOINT_PRICES_prices key ep H) as [Hp | [Hp | [Hp | Hp]]];
    rewrite Hp in *; [discriminate | | |];
    (split; [reflexivity |]); eexists; (split; [vm_compute; reflexivity |]);
    repeat constructor.
Qed.

(** ** Base-unit conversion *)

Lemma integer_of_nonneg (rnd : Z -> Z -> Z) (x : JS.number) :
  (forall n k, 0 <= n -> 0 < k -> 0 <= rnd n k) ->
  Float.sign x = false -> 0 <= Float.integer_of rnd x.
Proof.
  intros Hrnd Hs. destruct x as [s | s | | s m e]; simpl in *; try lia.
  subst s. destruct (Z.leb_spec 0 e); simpl.
  - apply Z.mul_nonneg_nonneg; [lia | apply Z.pow_nonneg; lia].
  - apply Hrnd; lia.
Qed.

Lemma floor_div_nonneg (n k : Z) : 0 <= n -> 0 < k -> 0 <= JS.floor_div n k.
Proof.
  intros Hn Hk. unfold JS.floor_div.
  apply Z.div_pos; [done | apply Z.pow_pos_nonneg; lia].
Qed.

Lemma round_div_nonneg (n k : Z) : 0 <= n -> 0 < k -> 0 <= JS.round_div n k.
Proof.
  intros Hn Hk. unfold JS.round_div.
  assert (0 < 2 ^ k) by (apply Z.pow_pos_nonneg; lia).
  apply Z.div_pos; [lia | apply Z.pow_pos_nonneg; lia].
Qed.

(** Scaling by a power of ten and rounding gives an integer whenever the
    product is finite, and a non-negative one for a non-negative amount. *)
Lemma scaled_integral (rnd : Z -> Z -> Z) (a scale : JS.number) :
  Float.contracting rnd ->
  JS.is_finite (JS.mul a scale) = true ->
  JS.BigInt (JS.integral rnd (JS.mul a scale))
    = Normal (Float.integer_of rnd (JS.mul a scale)).
Proof.
  intros Hrnd Hfin. apply FloatFacts.BigInt_integral; [done | done |].
  destruct (FloatFacts.mul_rounded a scale) as [HNaN | Hr].
  - rewrite HNaN in Hfin. discriminate.
  - eapply FloatFacts.rounded_small, Hr.
Qed.

Lemma scaled_nonneg (rnd : Z -> Z -> Z) (a scale : JS.number) :
  (forall n k, 0 <= n -> 0 < k -> 0 <= rnd n k) ->
  JS.le JS.zero a = true -> Float.sign scale = false ->
  0 <= Float.integer_of rnd (JS.mul a scale).
Proof.
  intros Hrnd Ha Hs.
  destruct a as [s | s | | s m e]; destruct scale as [s' | s' | | s' m' e'];
    simpl in Hs; subst; try discriminate; try (simpl; lia).
  destruct s; [discriminate |].
  apply integer_of_nonneg; [done |].
  destruct (FloatFacts.mul_rounded (S754_finite false m e) (S754_finite false m' e'))
    as [HNaN | Hr]; [rewrite HNaN; reflexivity |].
  simpl xorb in Hr. destruct Hr; reflexivity.
Qed.

Lemma kirkToRaw_finite (kirkAmount : JS.number) :
  JS.is_finite (JS.mul kirkAmount (JS.pow10 KIRK_TOKEN_DECIMALS)) = true ->
  kirkToRaw kirkAmount = Normal (JS.toString
    (Float.integer_of JS.floor_div (JS.mul kirkAmount (JS.pow10 KIRK_TOKEN_DECIMALS)))).
Proof.
  intros Hfin. unfold kirkToRaw, JS.Math_floor.
  rewrite scaled_integral by (done || apply FloatFacts.floor_div_contracting).
  reflexivity.
Qed.

Lemma usdcToRaw_finite (usdcAmount : JS.number) :
  JS.is_finite (JS.mul usdcAmount (JS.pow10 USDC_DECIMALS)) = true ->
  usdcToRaw usdcAmount = Normal (JS.toString
    (Float.integer_of JS.round_div (JS.mul usdcAmount (JS.pow10 USDC_DECIMALS)))).
Proof.
  intros Hfin. unfold usdcToRaw, JS.Math_round.
  rewrite scaled_integral by (done || apply FloatFacts.round_div_contracting).
  reflexivity.
Qed.

(** The part of the base-unit invariant the code keeps: while the scaled
    amount stays within the binary64 range, both conversions return the
    decimal string of a non-negative integer. *)
Lemma raw_amounts_in_range (a : JS.number) :
  JS.le JS.zero a = true ->
  (JS.is_finite (JS.mul a (JS.pow10 KIRK_TOKEN_DECIMALS)) = true ->
   exists n, 0 <= n /\ kirkToRaw a = Normal (JS.toString n)) /\
  (JS.is_finite (JS.mul a (JS.pow10 USDC_DECIMALS)) = true ->
   exists n, 0 <= n /\ usdcToRaw a = Normal (JS.toString n)).
Proof.
  intros Ha. split; intros Hfin; eexists;
    (split; [| eauto using kirkToRaw_finite, usdcToRaw_finite]).
  - apply scaled_nonneg; [apply floor_div_nonneg | done | reflexivity].
  - apply scaled_nonneg; [apply round_div_nonneg | done | reflexivity].
Qed.

(** C9 (the code departs from the claim): the quote for the registry price
    [0.01] at the positive feed price [1e-300] is the finite, non-negative
    amount [7e297]; scaled by [10 ** 18] it is [Infinity], which
    [Math.floor] returns unchanged and [BigInt] rejects, so [kirkToRaw]
    throws a [RangeError] instead of returning an integer string. *)
Theorem kirkToRaw_throws_on_overflow :
  let kirkAmount := calculateKirkAmount (JS.of_ratio 1 100) (JS.of_ratio 1 (10 ^ 300)) in
  JS.gt (JS.of_ratio 1 (10 ^ 300)) JS.zero = true /\
  JS.is_finite kirkAmount = true /\
  JS.le JS.zero kirkAmount = true /\
  JS.mul kirkAmount (JS.pow10 KIRK_TOKEN_DECIMALS) = JS.Infinity /\
  kirkToRaw kirkAmount = Throw JS.not_an_integer.
Proof. vm_compute. repeat split; reflexivity. Qed.

(** ** The quote calculation *)

Lemma gt_zero_not_le (p : JS.number) :
  JS.gt p JS.zero = true -> JS.le p JS.zero = false.
Proof. destruct p as [s | [] | | [] m e]; simpl; done. Qed.

Lemma gt_zero_finite (x : JS.number) :
  JS.gt x JS.zero = true -> JS.is_finite x = true ->
  exists m e, x = S754_finite false m e.
Proof. destruct x as [s | [] | | [] m e]; simpl; try done. eauto. Qed.

Lemma to_Q_positive (m : positive) (e : Z) : (0 < JS.to_Q (S754_finite false m e))%Q.
Proof.
  unfold JS.to_Q, Qlt. destruct (Z.leb_spec 0 e); simpl Qnum; simpl Qden.
  - assert (0 < 2 ^ e) by (apply Z.pow_pos_nonneg; lia). nia.
  - lia.
Qed.

(** [Math.ceil] of a positive number is the least integer not below it. *)
Lemma ceil_of_positive (m : positive) (e : Z) :
  let n := Float.integer_of JS.ceil_div (S754_finite false m e) in
  1 <= n /\
  (JS.to_Q (S754_finite false m e) <= inject_Z n)%Q /\
  (inject_Z n < JS.to_Q (S754_finite false m e) + 1)%Q.
Proof.
  unfold Float.integer_of, JS.to_Q, JS.ceil_div, Qle, Qlt.
  destruct (Z.leb_spec 0 e) as [He | He]; simpl cond_Zopp.
  - assert (0 < 2 ^ e) by (apply Z.pow_pos_nonneg; lia).
    simpl. nia.
  - assert (HP : 0 < 2 ^ (- e)) by (apply Z.pow_pos_nonneg; lia).
    pose proof (Z_div_mod_eq_full (- Zpos m) (2 ^ (- e))) as Heq.
    pose proof (Z.mod_pos_bound (- Zpos m) (2 ^ (- e)) HP) as Hr.
    simpl Qnum. simpl Qden. rewrite !Z2Pos.id by done.
    repeat split; nia.
Qed.

(** While the quotient of the discounted price by the feed price is a
    positive finite number, the KIRK amount is that quotient rounded up to a
    whole token. Its USD value at the feed price is therefore positive and at
    least the value of the quotient, which it exceeds by less than the price
    of one token. *)
Lemma calculateKirkAmount_ceiling (usdcPrice p : JS.number) :
  let quotient := JS.div (JS.mul usdcPrice (JS.sub JS.one KIRK_DISCOUNT)) p in
  let amount := calculateKirkAmount usdcPrice p in
  JS.gt p JS.zero = true ->
  JS.gt quotient JS.zero = true ->
  JS.is_finite quotient = true ->
  exists n : Z,
    JS.BigInt amount = Normal n /\ 1 <= n /\
    (JS.to_Q quotient <= inject_Z n)%Q /\
    (inject_Z n < JS.to_Q quotient + 1)%Q /\
    (0 < implied_usd amount p)%Q /\
    (JS.to_Q quotient * JS.to_Q p <= implied_usd amount p)%Q /\
    (implied_usd amount p < JS.to_Q quotient * JS.to_Q p + JS.to_Q p)%Q.
Proof.
  intros quotient amount Hp Hq Hfin.
  assert (Hamount : amount = JS.Math_ceil quotient).
  { unfold amount, calculateKirkAmount. by rewrite (gt_zero_not_le p Hp). }
  assert (Hpfin : JS.is_finite p = true).
  { unfold quotient in Hq.
    destruct (JS.mul usdcPrice (JS.sub JS.one KIRK_DISCOUNT)) as [s | s | | s m e],
      p as [s' | [] | | s' m' e']; simpl in *; done. }
  destruct (gt_zero_finite p Hp Hpfin) as (mp & ep & Hpeq).
  destruct (gt_zero_finite quotient Hq Hfin) as (m & e & Hqeq).
  assert (Hsmall : Float.small quotient).
  { destruct (FloatFacts.div_rounded (JS.mul usdcPrice (JS.sub JS.one KIRK_DISCOUNT)) p)
      as [HNaN | Hr]; fold quotient in HNaN || fold quotient in Hr.
    - rewrite Hqeq in HNaN. discriminate.
    - eapply FloatFacts.rounded_small, Hr. }
  pose proof (FloatFacts.BigInt_integral JS.ceil_div quotient
                FloatFacts.ceil_div_contracting Hfin Hsmall) as Hbig.
  fold JS.Math_ceil in Hbig. rewrite <- Hamount in Hbig.
  set (n := Float.integer_of JS.ceil_div quotient) in *.
  pose proof (ceil_of_positive m e) as (Hn1 & Hlo & Hhi).
  rewrite <- Hqeq in Hn1, Hlo, Hhi. fold n in Hn1, Hlo, Hhi.
  pose proof (FloatFacts.to_Q_BigInt amount n Hbig) as HQ.
  assert (Hppos : (0 < JS.to_Q p)%Q) by (rewrite Hpeq; apply to_Q_positive).
  exists n. unfold implied_usd. rewrite HQ.
  repeat split; try done.
  - apply Qmult_lt_0_compat; [| done].
    unfold Qlt, inject_Z. simpl. lia.
  - apply Qmult_le_compat_r; [done | by apply Qlt_le_weak].
  - apply Qlt_le_trans with ((JS.to_Q quotient + 1) * JS.to_Q p)%Q.
    + by apply Qmult_lt_compat_r.
    + rewrite Qmult_plus_distr_l, Qmult_1_l. apply Qle_refl.
Qed.

(** The scenario of the specification: [0.05] USD at the feed price
    [0.0000003] is quoted at 116667 KIRK, and [116667 * 10 ** 18] to the
    nearest number is what [kirkToRaw] prints. *)
Example quote_of_the_specification :
  calculateKirkAmount (JS.of_ratio 5 100) (JS.of_ratio 3 10000000) = JS.of_Z 116667 /\
  kirkToRaw (JS.of_Z 116667) = Normal "116666999999999999213568" /\
  usdcToRaw (JS.of_ratio 5 100) = Normal "50000".
Proof. vm_compute. repeat split; reflexivity. Qed.

(** The discounted price of a priced route is a positive normal number. *)
Lemma discounted_price_normal (key : string) (ep : EndpointPrice) :
  ENDPOINT_PRICES !! key = Some ep ->
  JS.gt (usdcPrice ep) JS.zero = true ->
  exists m e,
    JS.mul (usdcPrice ep) (JS.sub JS.one KIRK_DISCOUNT) = S754_finite false m e /\
    Zpos (digits2_pos m) = 53 /\ -60 <= e <= -56.
Proof.
  intros H Hgt.
  destruct (ENDPOINT_PRICES_prices key ep H) as [Hp | [Hp | [Hp | Hp]]];
    rewrite Hp in *; [discriminate | | |];
    eexists _, _; (split; [vm_compute; reflexivity |]); split; (reflexivity || lia).
Qed.

(** C1, as the code has it: for a priced route and a feed price that is a
    positive normal number, the KIRK amount is the quotient of the discounted
    price by the feed price, rounded up to a whole token. Its USD value at
    the feed price is therefore positive and at least the value of the
    quotient, which it exceeds by less than the price of one token. *)
Theorem discounted_quote_rounds_up (key : string) (ep : EndpointPrice) (p : JS.number) :
  let quotient := JS.div (JS.mul (usdcPrice ep) (JS.sub JS.one KIRK_DISCOUNT)) p in
  let amount := calculateKirkAmount (usdcPrice ep) p in
  ENDPOINT_PRICES !! key = Some ep ->
  JS.gt (usdcPrice ep) JS.zero = true ->
  Float.positive_normal p ->
  exists n : Z,
    JS.BigInt amount = Normal n /\ 1 <= n /\
    (JS.to_Q quotient <= inject_Z n)%Q /\
    (inject_Z n < JS.to_Q quotient + 1)%Q /\
    (0 < implied_usd amount p)%Q /\
    (JS.to_Q quotient * JS.to_Q p <= implied_usd amount p)%Q /\
    (implied_usd amount p < JS.to_Q quotient * JS.to_Q p + JS.to_Q p)%Q.
Proof.
  intros quotient amount H Hgt (mp & ep' & -> & Hdp & Hep).
  destruct (discounted_price_normal key ep H Hgt) as (md & ed & Hd & Hdd & Hed).
  destruct (FloatFacts.div_normal md mp ed ep' Hdd Hdp ltac:(lia)) as (mq & eq & Hq & _).
  apply calculateKirkAmount_ceiling; [reflexivity | |];
    change (JS.div (JS.mul (usdcPrice ep) (JS.sub JS.one KIRK_DISCOUNT))
                   (S754_finite false mp ep')) with quotient;
    unfold quotient; rewrite Hd, Hq; reflexivity.
Qed.

Lemma discounted_quote_rounds_up_witness :
  exists n : Z,
    JS.BigInt (calculateKirkAmount (JS.of_ratio 5 100) (JS.of_ratio 3 10000000))
      = Normal n /\
    n = 116667 /\
    (0 < implied_usd (calculateKirkAmount (JS.of_ratio 5 100) (JS.of_ratio 3 10000000))
                     (JS.of_ratio 3 10000000))%Q.
Proof.
  destruct (discounted_quote_rounds_up "performance"
              {| usdcPrice := JS.of_ratio 5 100; tier := standard |}
              (JS.of_ratio 3 10000000))
    as (n & Hn & _ & _ & _ & Hpos & _).
  - reflexivity.
  - reflexivity.
  - eexists _, _. split; [vm_compute; reflexivity |]. split; [reflexivity | lia].
  - exists n. split; [exact Hn |]. split; [| exact Hpos].
    vm_compute in Hn. by injection Hn as <-.
Defined.

(** The bounds the specification gives fail, twice. For the [0.05] route
    at the feed price [0.0000003] the quote is 116667 KIRK, worth more than
    [0.7 * 0.05] USD. For a [0.01] route at the feed price [1] the quote is
    one whole KIRK, worth more than the undiscounted [0.01] USD. *)
Lemma discounted_value_above_claimed_bounds :
  ENDPOINT_PRICES !! "performance"
    = Some {| usdcPrice := JS.of_ratio 5 100; tier := standard |} /\
  ENDPOINT_PRICES !! "summary"
    = Some {| usdcPrice := JS.of_ratio 1 100; tier := light |} /\
  JS.gt (JS.of_ratio 3 10000000) JS.zero = true /\
  calculateKirkAmount (JS.of_ratio 5 100) (JS.of_ratio 3 10000000) = JS.of_Z 116667 /\
  ~ (implied_usd (calculateKirkAmount (JS.of_ratio 5 100) (JS.of_ratio 3 10000000))
                 (JS.of_ratio 3 10000000)
     <= (7 # 10) * JS.to_Q (JS.of_ratio 5 100))%Q /\
  JS.gt JS.one JS.zero = true /\
  calculateKirkAmount (JS.of_ratio 1 100) JS.one = JS.one /\
  ~ (implied_usd (calculateKirkAmount (JS.of_ratio 1 100) JS.one) JS.one
     <= JS.to_Q (JS.of_ratio 1 100))%Q.
Proof.
  repeat split; try (vm_compute; reflexivity);
    intros H; vm_compute in H; by apply H.
Qed.

(** ** The requirement builder *)

Lemma le_exponent (m0 m : positive) (e0 e : Z) :
  JS.le (S754_finite false m0 e0) (S754_finite false m e) = true -> e0 <= e.
Proof.
  unfold JS.le, SFleb, SFcompare.
  destruct (Z.compare_spec e0 e); [lia | lia | discriminate].
Qed.

(** For a priced route and a feed price from [1e-290] up to the largest
    number, the KIRK amount scaled to base units is finite. *)
Lemma scaled_kirk_amount_finite (key : string) (ep : EndpointPrice) (p : JS.number) :
  ENDPOINT_PRICES !! key = Some ep ->
  JS.gt (usdcPrice ep) JS.zero = true ->
  Float.positive_normal p ->
  JS.le (JS.of_ratio 1 (10 ^ 290)) p = true ->
  JS.is_finite (JS.mul (calculateKirkAmount (usdcPrice ep) p)
                       (JS.pow10 KIRK_TOKEN_DECIMALS)) = true.
Proof.
  intros H Hgt (mp & ep' & -> & Hdp & Hep) Hle.
  assert (Hlow : -1016 <= ep').
  { assert (Hlit : JS.of_ratio 1 (10 ^ 290) = S754_finite false 7022238808055922 (-1016))
      by (vm_compute; reflexivity).
    rewrite Hlit in Hle. by apply le_exponent in Hle. }
  destruct (discounted_price_normal key ep H Hgt) as (md & ed & Hd & Hdd & Hed).
  destruct (FloatFacts.div_normal md mp ed ep' Hdd Hdp ltac:(lia))
    as (mq & eq & Hq & Hmq & Heq).
  unfold calculateKirkAmount. cbn [JS.le SFleb SFcompare JS.zero]. rewrite Hd, Hq.
  destruct (FloatFacts.Math_ceil_positive mq eq Hmq) as (ma & ea & -> & Hma & Hea).
  assert (Hscale : JS.pow10 KIRK_TOKEN_DECIMALS = S754_finite false 7812500000000000 7)
    by (vm_compute; reflexivity).
  rewrite Hscale. apply FloatFacts.mul_finite; lia.
Qed.

(** What the code keeps of the base-unit invariant: for every registered
    route and every feed price from [1e-290] up to the largest number, the
    USDC amount and the KIRK amount are printed as the decimal digits of a
    non-negative integer. *)
Lemma raw_amounts_of_registry (key : string) (ep : EndpointPrice) (p : JS.number) :
  ENDPOINT_PRICES !! key = Some ep ->
  Float.positive_normal p ->
  JS.le (JS.of_ratio 1 (10 ^ 290)) p = true ->
  (exists n, 0 <= n /\ usdcToRaw (usdcPrice ep) = Normal (JS.toString n)) /\
  (exists n, 0 <= n /\
     kirkToRaw (calculateKirkAmount (usdcPrice ep) p) = Normal (JS.toString n)).
Proof.
  intros H Hp Hle.
  destruct (ENDPOINT_PRICES_prices key ep H) as [Hprice | Hpaid].
  { rewrite Hprice. destruct Hp as (mp & ep' & -> & _).
    split; exists 0; (split; [lia | reflexivity]). }
  assert (Hgt : JS.gt (usdcPrice ep) JS.zero = true)
    by (destruct Hpaid as [-> | [-> | ->]]; reflexivity).
  split.
  - refine (proj2 (raw_amounts_in_range (usdcPrice ep) _) _);
      destruct Hpaid as [-> | [-> | ->]]; reflexivity.
  - pose proof (scaled_kirk_amount_finite key ep p H Hgt Hp Hle) as Hfin.
    refine (proj1 (raw_amounts_in_range (calculateKirkAmount (usdcPrice ep) p) _) Hfin).
    destruct Hp as (mp & ep' & -> & Hdp & Hep).
    destruct (discounted_price_normal key ep H Hgt) as (md & ed & Hd & Hdd & Hed).
    destruct (FloatFacts.div_normal md mp ed ep' Hdd Hdp ltac:(lia))
      as (mq & eq & Hq & Hmq & Heq).
    unfold calculateKirkAmount. cbn [JS.le SFleb SFcompare JS.zero].
    rewrite Hd, Hq.
    destruct (FloatFacts.Math_ceil_positive mq eq Hmq) as (ma & ea & -> & _).
    reflexivity.
Qed.

(** While the KIRK base-unit amount stays within the binary64 range, a
    priced route gets exactly the USDC and the KIRK requirement, in this
    order, and a free route gets none. *)
Lemma dualTokenAccepts_registry (cfg : TokenConfig) (key : string)
    (ep : EndpointPrice) (p : JS.number) :
  ENDPOINT_PRICES !! key = Some ep ->
  (JS.gt (usdcPrice ep) JS.zero = true ->
   JS.is_finite (JS.mul (calculateKirkAmount (usdcPrice ep) p)
                        (JS.pow10 KIRK_TOKEN_DECIMALS)) = true ->
   exists usdc kirk,
     dualTokenAccepts cfg key p
       = Normal [usdc_requirement cfg usdc; kirk_requirement cfg kirk]) /\
  (JS.strict_eq (usdcPrice ep) JS.zero = true ->
   dualTokenAccepts cfg key p = Normal []).
Proof.
  intros H. rewrite (dualTokenAccepts_own cfg key ep p H). split.
  - intros Hgt Hfin.
    destruct (usdcToRaw_registry key ep H Hgt) as (-> & usdc & -> & _).
    rewrite (kirkToRaw_finite _ Hfin). eauto.
  - intros ->. reflexivity.
Qed.

(** What the code keeps of the shape of the requirement set: for every
    registered route and every feed price from [1e-290] up to the largest
    number, a priced route gets exactly two requirements, the USDC one with
    scheme [exact] and the KIRK one with scheme [upto], and a free route
    gets none. *)
Lemma dualTokenAccepts_two_or_none (cfg : TokenConfig) (key : string)
    (ep : EndpointPrice) (p : JS.number) :
  ENDPOINT_PRICES !! key = Some ep ->
  Float.positive_normal p ->
  JS.le (JS.of_ratio 1 (10 ^ 290)) p = true ->
  (JS.gt (usdcPrice ep) JS.zero = true ->
   exists usdc kirk,
     dualTokenAccepts cfg key p
       = Normal [usdc_requirement cfg usdc; kirk_requirement cfg kirk]) /\
  (JS.strict_eq (usdcPrice ep) JS.zero = true ->
   dualTokenAccepts cfg key p = Normal []).
Proof.
  intros H Hp Hle. destruct (dualTokenAccepts_registry cfg key ep p H) as [Hpaid Hfree].
  split; [| exact Hfree].
  intros Hgt. apply Hpaid; [done |]. by apply (scaled_kirk_amount_finite key).
Qed.

(** C4 (the code departs from the claim): for the registered route
    ["summary"], whose price is [0.01], and the positive feed price
    [1e-300] the builder returns no requirement set at all: [kirkToRaw]
    throws inside it. *)
Theorem dualTokenAccepts_throws_on_tiny_price :
  ENDPOINT_PRICES !! "summary"
    = Some {| usdcPrice := JS.of_ratio 1 100; tier := light |} /\
  JS.gt (JS.of_ratio 1 100) JS.zero = true /\
  JS.gt (JS.of_ratio 1 (10 ^ 300)) JS.zero = true /\
  dualTokenAccepts default_tokens "summary" (JS.of_ratio 1 (10 ^ 300))
    = Throw JS.not_an_integer.
Proof. vm_compute. repeat split; reflexivity. Qed.

(** The same overflow stops the server at startup: [createPaymentMiddleware]
    throws when the first price it fetches is that small. *)
Example createPaymentMiddleware_throws_on_tiny_price :
  createPaymentMiddleware default_tokens 0 (FeedPrice (JS.of_ratio 1 (10 ^ 300))) None
    = Throw JS.not_an_integer.
Proof. vm_compute. reflexivity. Qed.

(** C2, as the code has it: for a registered route with a positive price
    and a feed price [<= 0], the builder returns both requirements, and the
    KIRK one carries the amount ["0"]. *)
Theorem dualTokenAccepts_nonpositive_feed_price (cfg : TokenConfig) (key : string)
    (ep : EndpointPrice) (p : JS.number) :
  ENDPOINT_PRICES !! key = Some ep ->
  JS.gt (usdcPrice ep) JS.zero = true ->
  JS.le p JS.zero = true ->
  exists usdc,
    usdcToRaw (usdcPrice ep) = Normal usdc /\
    dualTokenAccepts cfg key p
      = Normal [usdc_requirement cfg usdc; kirk_requirement cfg "0"].
Proof.
  intros H Hgt Hp. rewrite (dualTokenAccepts_own cfg key ep p H).
  destruct (usdcToRaw_registry key ep H Hgt) as (-> & usdc & -> & _).
  rewrite (calculateKirkAmount_nonpositive _ _ Hp). eauto.
Qed.

Lemma dualTokenAccepts_nonpositive_feed_price_witness :
  exists usdc,
    usdcToRaw (JS.of_ratio 5 100) = Normal usdc /\
    dualTokenAccepts default_tokens "holdings" (SFopp (JS.of_ratio 1 1000))
      = Normal [usdc_requirement default_tokens usdc;
                kirk_requirement default_tokens "0"].
Proof.
  apply (dualTokenAccepts_nonpositive_feed_price default_tokens "holdings"
           {| usdcPrice := JS.of_ratio 5 100; tier := standard |});
    vm_compute; reflexivity.
Defined.

(** The specification has the KIRK option omitted; at the feed price [0]
    the set quoted for ["summary"] still has its KIRK requirement, with a
    zero amount. *)
Lemma dualTokenAccepts_zero_price_keeps_kirk :
  ENDPOINT_PRICES !! "summary"
    = Some {| usdcPrice := JS.of_ratio 1 100; tier := light |} /\
  JS.gt (JS.of_ratio 1 100) JS.zero = true /\
  JS.le JS.zero JS.zero = true /\
  dualTokenAccepts default_tokens "summary" JS.zero
    = Normal [usdc_requirement default_tokens "10000";
              kirk_requirement default_tokens "0"] /\
  ~ (forall reqs, dualTokenAccepts default_tokens "summary" JS.zero = Normal reqs ->
       forall r, r ∈ reqs -> scheme r <> upto /\ amount (price r) <> "0").
Proof.
  repeat split; try (vm_compute; reflexivity).
  intros Hclaim.
  destruct (Hclaim [usdc_requirement default_tokens "10000";
                    kirk_requirement default_tokens "0"] ltac:(vm_compute; reflexivity)
              (kirk_requirement default_tokens "0") ltac:(right; left)) as [Hs _].
  by apply Hs.
Qed.

(** C6, as the code has it: a key that is absent from the registry (and
    is no name the registry object inherits) gets the empty requirement
    set, as a free route does; nothing is thrown. *)
Theorem dualTokenAccepts_unknown_key (cfg : TokenConfig) (key : string)
    (p : JS.number) :
  ENDPOINT_PRICES !! key = None ->
  key ∉ Object_prototype ->
  dualTokenAccepts cfg key p = Normal [].
Proof.
  intros Habsent Hown. unfold dualTokenAccepts, ENDPOINT_PRICES_get.
  rewrite Habsent. by rewrite bool_decide_false.
Qed.

Lemma dualTokenAccepts_unknown_key_witness :
  dualTokenAccepts default_tokens "holdings-bottom" (JS.of_ratio 3 10000000) = Normal [].
Proof.
  apply dualTokenAccepts_unknown_key; [reflexivity |].
  apply (bool_decide_unpack _). vm_compute. reflexivity.
Defined.

(** An inherited name is found by the lookup; it has no [usdcPrice], and
    [usdcToRaw(undefined)] throws. *)
Example dualTokenAccepts_inherited_key :
  dualTokenAccepts default_tokens "toString" FLOOR_PRICE = Throw JS.not_an_integer.
Proof. vm_compute. reflexivity. Qed.

(** The specification has an unknown key fatal; ["portfolio"] is in no
    registry, and the builder neither throws for it nor tells it from the
    free route ["health"]. *)
Lemma dualTokenAccepts_unknown_key_not_fatal :
  ENDPOINT_PRICES !! "portfolio" = None /\
  ~ (exists e, dualTokenAccepts default_tokens "portfolio" FLOOR_PRICE = Throw e) /\
  dualTokenAccepts default_tokens "portfolio" FLOOR_PRICE
    = dualTokenAccepts default_tokens "health" FLOOR_PRICE.
Proof.
  repeat split; try (vm_compute; reflexivity).
  intros [e He]. vm_compute in He. discriminate.
Qed.

(** ** The price feed *)

(** A price that passed the [> 0] test is truthy and is no [NaN]. *)
Lemma gt_zero_truthy (x : JS.number) :
  JS.gt x JS.zero = true -> JS.truthy x = true /\ x <> JS.NaN.
Proof. destruct x as [s | [] | | [] m e]; simpl; intros H; try discriminate; done. Qed.

Lemma FLOOR_PRICE_positive : JS.gt FLOOR_PRICE JS.zero = true.
Proof. reflexivity. Qed.

Lemma fetchKirkPrice_step (P : JS.number -> Prop) (now : Z) (feed : FeedResponse)
    (cache : option PriceCache) :
  P FLOOR_PRICE -> cache_holds P cache -> feed_holds P feed ->
  exists p,
    fst (fetchKirkPrice now feed cache) = Normal p /\
    JS.gt p JS.zero = true /\ P p /\
    cache_holds P (snd (fetchKirkPrice now feed cache)) /\
    (feed_fails feed ->
     snd (fetchKirkPrice now feed cache) = cache /\
     p = match cache with Some c => priceUsd c | None => FLOOR_PRICE end).
Proof.
  intros HP Hc Hf. unfold fetchKirkPrice, fetchKirkPrice_refetch, fetchKirkPrice_try.
  destruct cache as [c |]; simpl in Hc.
  - destruct Hc as [Hgt HPc].
    destruct (gt_zero_truthy _ Hgt) as [Htr _].
    destruct (now - fetchedAt c <? PRICE_CACHE_TTL).
    { exists (priceUsd c). simpl. auto 10. }
    destruct feed as [e | x]; simpl in *.
    + exists (priceUsd c). unfold JS.or_else. rewrite Htr. auto 10.
    + destruct (JS.gt x JS.zero) eqn:Hx; simpl.
      * exists x. repeat split; auto; discriminate.
      * exists (priceUsd c). unfold JS.or_else. rewrite Htr. auto 10.
  - destruct feed as [e | x]; simpl in *.
    + exists FLOOR_PRICE. auto 10 using FLOOR_PRICE_positive.
    + destruct (JS.gt x JS.zero) eqn:Hx; simpl.
      * exists x. repeat split; auto; discriminate.
      * exists FLOOR_PRICE. auto 10 using FLOOR_PRICE_positive.
Qed.

Lemma price_cache_after_holds (P : JS.number -> Prop)
    (calls : list (Z * FeedResponse)) :
  P FLOOR_PRICE -> Forall (fun call => feed_holds P (snd call)) calls ->
  cache_holds P (price_cache_after calls).
Proof.
  intros HP. unfold price_cache_after.
  assert (H : cache_holds P None) by exact I. revert H.
  generalize (@None PriceCache) as cache.
  induction calls as [| [now feed] calls IH]; intros cache Hc Hall; [done |].
  apply Forall_cons in Hall as [Hf Hall]. simpl.
  apply IH; [| done].
  destruct (fetchKirkPrice_step P now feed cache HP Hc Hf) as (p & _ & _ & _ & H & _).
  exact H.
Qed.

(** What the code keeps of the contract of the feed: whatever the feed
    answered before and answers now, [fetchKirkPrice] returns and does not
    throw; its result passed the [> 0] test, so it is neither zero nor
    [NaN]; when the feed fails, the result is the cached price if there is
    one and [0.0000003] otherwise, and the cache is left as it was; and the
    result is finite as long as every price the feed reported was. *)
Lemma fetchKirkPrice_positive_with_fallback (calls : list (Z * FeedResponse))
    (now : Z) (feed : FeedResponse) :
  let cache := price_cache_after calls in
  exists p,
    fst (fetchKirkPrice now feed cache) = Normal p /\
    JS.gt p JS.zero = true /\ JS.truthy p = true /\ p <> JS.NaN /\
    (feed_fails feed ->
     snd (fetchKirkPrice now feed cache) = cache /\
     p = match cache with Some c => priceUsd c | None => FLOOR_PRICE end) /\
    (Forall (fun call => feed_holds (fun x => JS.is_finite x = true) (snd call))
            ((now, feed) :: calls) ->
     JS.is_finite p = true).
Proof.
  intros cache.
  destruct (fetchKirkPrice_step (fun _ => True) now feed cache I) as (p & Hp & Hgt & _ & _ & Hfail).
  { apply price_cache_after_holds; [done |]. apply Forall_forall. by intros [? []]. }
  { by destruct feed. }
  exists p. destruct (gt_zero_truthy p Hgt) as [Htr HNaN].
  repeat split; try done; try (by apply Hfail).
  intros [Hf Hall]%Forall_cons.
  destruct (fetchKirkPrice_step (fun x => JS.is_finite x = true) now feed cache)
    as (p' & Hp' & _ & Hfin & _); [done | by apply price_cache_after_holds | done |].
  rewrite Hp in Hp'. by injection Hp' as ->.
Qed.

Example fetchKirkPrice_stale_and_failing :
  exists p,
    fst (fetchKirkPrice 400000 (FeedPrice JS.NaN)
           (price_cache_after [(0, FeedPrice (JS.of_ratio 25 100000000))])) = Normal p /\
    p = JS.of_ratio 25 100000000 /\ JS.is_finite p = true.
Proof.
  destruct (fetchKirkPrice_positive_with_fallback
              [(0, FeedPrice (JS.of_ratio 25 100000000))] 400000 (FeedPrice JS.NaN))
    as (p & Hp & _ & _ & _ & Hfail & Hfin).
  destruct (Hfail eq_refl) as [_ Heq].
  exists p. split; [exact Hp |]. split.
  - exact Heq.
  - apply Hfin. constructor; [intros H; discriminate H |].
    constructor; [intros _; reflexivity | constructor].
Qed.

(** C5 (the code departs from the claim): a feed whose [priceUsd] parses to
    [Infinity] passes the [> 0] test, so with no snapshot the result of
    [fetchKirkPrice], and the price it caches, is [Infinity], which is not a
    finite price. *)
Theorem fetchKirkPrice_returns_Infinity :
  fetchKirkPrice 0 (FeedPrice JS.Infinity) None
    = (Normal JS.Infinity, Some {| priceUsd := JS.Infinity; fetchedAt := 0 |}) /\
  JS.is_finite JS.Infinity = false.
Proof. split; reflexivity. Qed.

(** At that price the quote for a priced route asks for no KIRK at all. *)
Example quote_at_infinite_price :
  dualTokenAccepts default_tokens "summary" JS.Infinity
    = Normal [usdc_requirement default_tokens "10000";
              kirk_requirement default_tokens "0"].
Proof. vm_compute. reflexivity. Qed.

(** ** The middleware *)

Lemma refresh_middleware (now : Z) (feed : FeedResponse) (st : Payments) :
  middleware (refresh now feed st) = middleware st.
Proof. unfold refresh. destruct (fetchKirkPrice _ _ _). reflexivity. Qed.

Lemma refreshes_middleware (ticks : list (Z * FeedResponse)) (st : Payments) :
  middleware (refreshes ticks st) = middleware st.
Proof.
  unfold refreshes. revert st.
  induction ticks as [| tick ticks IH]; intros st; [reflexivity |].
  simpl. rewrite IH. apply refresh_middleware.
Qed.

Lemma refreshes_cache (ticks : list (Z * FeedResponse)) (st : Payments) :
  kirkPriceCache (refreshes ticks st)
    = fold_left (fun cache tick => snd (fetchKirkPrice (fst tick) (snd tick) cache))
                ticks (kirkPriceCache st).
Proof.
  unfold refreshes. revert st.
  induction ticks as [| tick ticks IH]; intros st; [reflexivity |].
  simpl. rewrite IH. f_equal. unfold refresh.
  destruct (fetchKirkPrice _ _ _). reflexivity.
Qed.

Lemma mapM_build_route_cons (cfg : TokenConfig) (p : JS.number)
    (pattern key desc : string) (table : list (string * string * string)) :
  mapM (build_route cfg p) ((pattern, key, desc) :: table) =
    match dualTokenAccepts cfg key p with
    | Normal reqs =>
        match mapM (build_route cfg p) table with
        | Normal routes =>
            Normal ((pattern, {| accepts := reqs; description := desc;
                                 mimeType := "application/json" |}) :: routes)
        | Throw e => Throw e
        end
    | Throw e => Throw e
    end.
Proof.
  change (mapM (build_route cfg p) ((pattern, key, desc) :: table))
    with (y ← build_route cfg p (pattern, key, desc);
          k ← mapM (build_route cfg p) table; mret (y :: k)).
  unfold build_route, mbind, completion_bind, mret, completion_ret.
  destruct (dualTokenAccepts cfg key p); reflexivity.
Qed.

Lemma route_table_patterns : NoDup (pattern_of <$> route_table).
Proof. apply (bool_decide_unpack _). vm_compute. reflexivity. Qed.

Lemma assoc_buildRoutes (cfg : TokenConfig) (p : JS.number)
    (table : list (string * string * string)) (routes : list (string * RouteConfig))
    (pattern key desc : string) :
  NoDup (pattern_of <$> table) ->
  mapM (build_route cfg p) table = Normal routes ->
  (pattern, key, desc) ∈ table ->
  exists reqs,
    dualTokenAccepts cfg key p = Normal reqs /\
    assoc pattern routes
      = Some {| accepts := reqs; description := desc; mimeType := "application/json" |}.
Proof.
  revert routes.
  induction table as [| [[pattern' key'] desc'] table IH]; intros routes Hnd Hmap Hin.
  { by apply elem_of_nil in Hin. }
  rewrite fmap_cons in Hnd. apply NoDup_cons in Hnd as [Hfresh Hnd].
  rewrite mapM_build_route_cons in Hmap.
  destruct (dualTokenAccepts cfg key' p) as [reqs' |] eqn:Hreqs; [| discriminate].
  destruct (mapM (build_route cfg p) table) as [routes' |] eqn:Hrest; [| discriminate].
  injection Hmap as <-.
  apply elem_of_cons in Hin as [[= -> -> ->] | Hin].
  - exists reqs'. split; [done |]. cbn [assoc]. by rewrite String.eqb_refl.
  - destruct (IH routes' Hnd eq_refl Hin) as (reqs & Hk & Ha).
    exists reqs. split; [done |]. cbn [assoc].
    destruct (String.eqb_spec pattern' pattern) as [-> | Hne]; [| done].
    exfalso. apply Hfresh. apply list_elem_of_fmap. by exists (pattern, key, desc).
Qed.

(** C3, as the code has it: the requirement set quoted for a route is the
    one computed from the KIRK price fetched when the middleware was
    created, whatever refreshes have run since. *)
Theorem quote_uses_creation_price (cfg : TokenConfig) (now : Z) (feed : FeedResponse)
    (cache : option PriceCache) (st : Payments)
    (ticks : list (Z * FeedResponse)) :
  createPaymentMiddleware cfg now feed cache = Normal st ->
  exists kirkPriceUsd,
    fst (fetchKirkPrice now feed cache) = Normal kirkPriceUsd /\
    forall pattern key desc, (pattern, key, desc) ∈ route_table ->
      exists reqs,
        dualTokenAccepts cfg key kirkPriceUsd = Normal reqs /\
        quote (refreshes ticks st) pattern = Some reqs.
Proof.
  unfold createPaymentMiddleware. intros Hst.
  destruct (fetchKirkPrice now feed cache) as [[kirkPriceUsd |] cache']; [| discriminate].
  unfold buildRoutesConfig, mbind, completion_bind, mret, completion_ret in Hst.
  destruct (mapM (build_route cfg kirkPriceUsd) route_table) as [routes0 |] eqn:Hroutes;
    [| discriminate].
  injection Hst as <-. exists kirkPriceUsd. split; [reflexivity |].
  intros pattern key desc Hin.
  destruct (assoc_buildRoutes cfg kirkPriceUsd route_table routes0 pattern key desc
              route_table_patterns Hroutes Hin) as (reqs & Hreqs & Hassoc).
  exists reqs. split; [done |].
  unfold quote. rewrite refreshes_middleware. cbn [middleware routes]. by rewrite Hassoc.
Qed.

Lemma quote_uses_creation_price_witness :
  exists st reqs,
    createPaymentMiddleware default_tokens 0 (FeedPrice (JS.of_ratio 3 10000000)) None
      = Normal st /\
    dualTokenAccepts default_tokens "tradebook" (JS.of_ratio 3 10000000) = Normal reqs /\
    quote (refreshes [(300000, FeedPrice (JS.of_ratio 6 10000000));
                      (600000, FeedThrows (TypeError "fetch failed"))] st)
          "GET /models/[model]/tradebook" = Some reqs.
Proof.
  eexists.
  assert (Hst : createPaymentMiddleware default_tokens 0
                  (FeedPrice (JS.of_ratio 3 10000000)) None = Normal _)
    by (vm_compute; reflexivity).
  destruct (quote_uses_creation_price default_tokens 0 _ None _
              [(300000, FeedPrice (JS.of_ratio 6 10000000));
               (600000, FeedThrows (TypeError "fetch failed"))] Hst)
    as (p & Hp & Hquote).
  injection Hp as <-.
  destruct (Hquote "GET /models/[model]/tradebook" "tradebook" "Full position ledger")
    as (reqs & Hreqs & Hq).
  { unfold route_table. repeat constructor. }
  exists reqs. split; [exact Hst |]. split; [exact Hreqs | exact Hq].
Defined.

(** The quote does not follow the feed: the middleware is created while KIRK
    trades at [0.0000003]; five minutes later the refresh finds
    [0.0000006], and the snapshot follows; the set quoted for the summary
    route still asks for the 23334 KIRK of the old price, not for the 11667
    of the new one. *)
Lemma quote_ignores_refreshed_price :
  exists st,
    createPaymentMiddleware default_tokens 0 (FeedPrice (JS.of_ratio 3 10000000)) None
      = Normal st /\
    let st' := refresh 300000 (FeedPrice (JS.of_ratio 6 10000000)) st in
    kirkPriceCache st'
      = Some {| priceUsd := JS.of_ratio 6 10000000; fetchedAt := 300000 |} /\
    quote st' "GET /models/[model]/summary"
      = Some [usdc_requirement default_tokens "10000";
              kirk_requirement default_tokens "23333999999999998427136"] /\
    dualTokenAccepts default_tokens "summary" (JS.of_ratio 6 10000000)
      = Normal [usdc_requirement default_tokens "10000";
                kirk_requirement default_tokens "11666999999999999213568"] /\
    quote st' "GET /models/[model]/summary"
      <> Some [usdc_requirement default_tokens "10000";
               kirk_requirement default_tokens "11666999999999999213568"].
Proof.
  eexists. split; [vm_compute; reflexivity |].
  repeat split; try (vm_compute; reflexivity).
  vm_compute. discriminate.
Qed.

(** ** The data cache *)

Lemma cachedFetch_cached_Some {T} (now : Z) (key : string)
    (cache : gmap string (CacheEntry T)) (cached : CacheEntry T) :
  cache !! key = Some cached -> now < expires cached ->
  cachedFetch_cached now key cache = Some (data cached).
Proof.
  intros H Hlive. unfold cachedFetch_cached. rewrite H.
  destruct (Z.gtb_spec (expires cached) now); [reflexivity | lia].
Qed.

Lemma cachedFetch_cached_None {T} (now : Z) (key : string)
    (cache : gmap string (CacheEntry T)) :
  cache !! key = None \/
  (exists cached, cache !! key = Some cached /\ expires cached <= now) ->
  cachedFetch_cached now key cache = None.
Proof.
  intros [H | (cached & H & Hdead)]; unfold cachedFetch_cached; rewrite H; [done |].
  destruct (Z.gtb_spec (expires cached) now); [lia | reflexivity].
Qed.

(** C8: a live entry is returned as it is, with the store (the cache and
    the count of fetcher calls) untouched; otherwise the fetcher is called
    once, and either its result is returned and stored under the key with
    an expiry one hour after the clock, or its error is thrown on and the
    cache stays as it was. *)
Theorem cachedFetch_hit_or_fetch {T} (now now' : Z) (key : string)
    (fetched : completion T) (st : Store T) :
  (forall cached, cache st !! key = Some cached -> now < expires cached ->
     cachedFetch now now' key fetched st = (Normal (data cached), st)) /\
  (cache st !! key = None \/
   (exists cached, cache st !! key = Some cached /\ expires cached <= now) ->
     match fetched with
     | Normal data =>
         cachedFetch now now' key fetched st
           = (Normal data,
              {| cache := <[key := {| data := data; expires := now' + 3600000 |}]> (cache st);
                 fetches := S (fetches st) |})
     | Throw e =>
         cachedFetch now now' key fetched st
           = (Throw e, {| cache := cache st; fetches := S (fetches st) |})
     end).
Proof.
  split.
  - intros cached H Hlive. unfold cachedFetch.
    by rewrite (cachedFetch_cached_Some now key (cache st) cached H Hlive).
  - intros Hmiss. unfold cachedFetch.
    rewrite (cachedFetch_cached_None now key (cache st) Hmiss).
    destruct fetched; reflexivity.
Qed.

Lemma cachedFetch_hit_or_fetch_witness :
  let entry := {| data := "yesterday"; expires := 5000 |} in
  let st := {| cache := {[ "model:usa-model1" := entry ]}; fetches := 7 |} in
  cachedFetch 4999 5100 "model:usa-model1" (Normal "today") st
    = (Normal "yesterday", st) /\
  cachedFetch 5000 5100 "model:usa-model1" (Normal "today") st
    = (Normal "today",
       {| cache := <["model:usa-model1" := {| data := "today"; expires := 5100 + 3600000 |}]>
                     (cache st);
          fetches := 8 |}) /\
  cachedFetch 0 9 "model:usa-model2" (Throw (Error "KSVC API error: 503")) st
    = (Throw (Error "KSVC API error: 503"), {| cache := cache st; fetches := 8 |}).
Proof.
  intros entry st. split; [| split].
  - apply (proj1 (cachedFetch_hit_or_fetch 4999 5100 "model:usa-model1"
                    (Normal "today") st) entry); [reflexivity | simpl; lia].
  - apply (proj2 (cachedFetch_hit_or_fetch 5000 5100 "model:usa-model1"
                    (Normal "today") st)).
    right. exists entry. split; [reflexivity | simpl; lia].
  - apply (proj2 (cachedFetch_hit_or_fetch 0 9 "model:usa-model2"
                    (Throw (Error "KSVC API error: 503")) st)).
    left. reflexivity.
Defined.

(** ** Calls that overlap *)

Lemma cachedFetch_resume_result {T} (now : Z) (key : string) (fetched : completion T)
    (cache : gmap string (CacheEntry T)) :
  fst (cachedFetch_resume now key fetched cache) = fetched.
Proof. destruct fetched; reflexivity. Qed.

(** Callers that enter while the key has no live entry all go on to the
    fetcher: the cache is as before, and each of them is suspended. *)
Lemma run_enter {T} (key : string) (enter_at : nat -> Z) (callers : list nat)
    (s : Scheduler T) :
  (forall c, c ∈ callers ->
     cachedFetch_cached (enter_at c) key (cache (store s)) = None) ->
  cache (store (run s (enter_events key enter_at callers))) = cache (store s) /\
  fetches (store (run s (enter_events key enter_at callers)))
    = (fetches (store s) + length callers)%nat /\
  returned (run s (enter_events key enter_at callers)) = returned s /\
  (forall c, suspended (run s (enter_events key enter_at callers)) !! c
             = if decide (c ∈ callers) then Some key else suspended s !! c).
Proof.
  revert s. induction callers as [| c0 callers IH]; intros s Hdead.
  { cbn. repeat split; lia. }
  change (run s (enter_events key enter_at (c0 :: callers)))
    with (run (step s (Enter c0 key (enter_at c0))) (enter_events key enter_at callers)).
  assert (Hs1 : step s (Enter c0 key (enter_at c0))
                = {| store := {| cache := cache (store s); fetches := S (fetches (store s)) |};
                     suspended := <[c0 := key]> (suspended s);
                     returned := returned s |}).
  { cbn [step]. rewrite (Hdead c0) by left. reflexivity. }
  rewrite Hs1.
  match goal with |- context [run ?s1 _] => destruct (IH s1) as (Hc & Hf & Hr & Hs) end.
  { intros c Hc. apply Hdead. by right. }
  rewrite Hc, Hf, Hr. cbn [store cache fetches suspended returned length].
  repeat split; try lia.
  intros c. rewrite Hs. cbn [suspended].
  destruct (decide (c ∈ callers)) as [Hin | Hnotin].
  - by rewrite decide_True by (by right).
  - destruct (decide (c = c0)) as [-> | Hne].
    + rewrite decide_True by left. apply lookup_insert_eq.
    + rewrite decide_False by (by intros [? | ?]%elem_of_cons).
      by apply lookup_insert_ne.
Qed.

(** When the promises of suspended callers settle, each caller gets what
    its own call of the fetcher produced, and no fetcher is called. *)
Lemma run_settle {T} (key : string) (settle_at : nat -> Z)
    (fetched : nat -> completion T) (callers : list nat) (s : Scheduler T) :
  NoDup callers ->
  (forall c, c ∈ callers -> suspended s !! c = Some key) ->
  fetches (store (run s (settle_events settle_at fetched callers)))
    = fetches (store s) /\
  (forall c, returned (run s (settle_events settle_at fetched callers)) !! c
             = if decide (c ∈ callers) then Some (fetched c) else returned s !! c).
Proof.
  revert s. induction callers as [| c0 callers IH]; intros s Hnd Hsusp.
  { cbn. split; [done |]. intros c.
    by rewrite decide_False by (by intros ?%elem_of_nil). }
  apply NoDup_cons in Hnd as [Hfresh Hnd].
  change (run s (settle_events settle_at fetched (c0 :: callers)))
    with (run (step s (Settle c0 (fetched c0) (settle_at c0)))
              (settle_events settle_at fetched callers)).
  pose proof (cachedFetch_resume_result (settle_at c0) key (fetched c0) (cache (store s)))
    as Hres.
  assert (Hs1 : step s (Settle c0 (fetched c0) (settle_at c0))
                = {| store := {| cache := snd (cachedFetch_resume (settle_at c0) key
                                                 (fetched c0) (cache (store s)));
                                 fetches := fetches (store s) |};
                     suspended := delete c0 (suspended s);
                     returned := <[c0 := fetched c0]> (returned s) |}).
  { cbn [step]. rewrite (Hsusp c0) by left.
    destruct (cachedFetch_resume _ _ _ _) as [r cache']. simpl in Hres. by subst r. }
  rewrite Hs1.
  match goal with |- context [run ?s1 _] => destruct (IH s1 Hnd) as (Hf & Hr) end.
  { intros c Hc. cbn [suspended].
    rewrite lookup_delete_ne by (by intros ->). apply Hsusp. by right. }
  rewrite Hf. split; [reflexivity |].
  intros c. rewrite Hr. cbn [returned].
  destruct (decide (c ∈ callers)) as [Hin | Hnotin].
  - by rewrite decide_True by (by right).
  - destruct (decide (c = c0)) as [-> | Hne].
    + rewrite decide_True by left. apply lookup_insert_eq.
    + rewrite decide_False by (by intros [? | ?]%elem_of_cons).
      by apply lookup_insert_ne.
Qed.

(** C7, as the code has it: callers that ask for the same key while it has
    no live entry, and before any of their fetches has settled, each call
    the fetcher, so N callers make N upstream calls; whatever the order in
    which the promises settle, each caller gets the result of its own
    call. *)
Theorem overlapping_calls_fetch_each {T} (st : Store T) (key : string)
    (callers order : list nat) (enter_at settle_at : nat -> Z)
    (fetched : nat -> completion T) :
  NoDup callers -> order ≡ₚ callers ->
  (forall c, c ∈ callers -> cachedFetch_cached (enter_at c) key (cache st) = None) ->
  let entered := run (idle st) (enter_events key enter_at callers) in
  let settled := run entered (settle_events settle_at fetched order) in
  fetches (store entered) = (fetches st + length callers)%nat /\
  fetches (store settled) = (fetches st + length callers)%nat /\
  (forall c, c ∈ callers -> returned settled !! c = Some (fetched c)).
Proof.
  intros Hnd Hperm Hdead entered settled.
  destruct (run_enter key enter_at callers (idle st) Hdead) as (_ & Hf & _ & Hs).
  fold entered in Hf, Hs. cbn [idle store fetches] in Hf.
  destruct (run_settle key settle_at fetched order entered) as (Hf' & Hr).
  { by rewrite Hperm. }
  { intros c Hc. rewrite Hs. by rewrite decide_True by (by rewrite <- Hperm). }
  fold settled in Hf', Hr. repeat split; [done | congruence |].
  intros c Hc. rewrite Hr. by rewrite decide_True by (by rewrite Hperm).
Qed.

Lemma overlapping_calls_fetch_each_witness :
  let st : Store string := {| cache := ∅; fetches := 0 |} in
  let fetched (c : nat) : completion string :=
    if Nat.eqb c 3 then Throw (Error "KSVC API error: 502") else Normal "data" in
  let entered := run (idle st) (enter_events "model:twse-model1" Z.of_nat [1; 2; 3]%nat) in
  let settled := run entered (settle_events (fun c => 10 + Z.of_nat c) fetched [2; 3; 1]%nat) in
  fetches (store entered) = 3%nat /\
  fetches (store settled) = 3%nat /\
  (forall c, c ∈ [1; 2; 3]%nat -> returned settled !! c = Some (fetched c)).
Proof.
  intros st fetched.
  apply (overlapping_calls_fetch_each st "model:twse-model1" [1; 2; 3]%nat [2; 3; 1]%nat
           Z.of_nat (fun c => 10 + Z.of_nat c) fetched).
  - apply (bool_decide_unpack _). vm_compute. reflexivity.
  - apply (bool_decide_unpack _). vm_compute. reflexivity.
  - intros c _. reflexivity.
Defined.

(** There is no single flight: two callers ask for the same model on
    an empty cache, one right after the other; the fetcher is called twice,
    not once, and as upstream answered the two calls differently the
    callers get different results. *)
Lemma two_overlapping_calls_fetch_twice :
  let s := run (idle {| cache := ∅; fetches := 0 |})
               [Enter 1 "model:usa-model1" 0; Enter 2 "model:usa-model1" 1;
                Settle 1 (Normal "first answer") 50;
                Settle 2 (Normal "second answer") 60] in
  fetches (store s) = 2%nat /\
  returned s !! 1%nat = Some (Normal "first answer") /\
  returned s !! 2%nat = Some (Normal "second answer") /\
  returned s !! 1%nat <> returned s !! 2%nat.
Proof. vm_compute. repeat split; try reflexivity. discriminate. Qed.

(** ** The recent-trades view *)

(** C10: the view holds the first [min K 20] of the [K] filled orders of
    the fetched data, in their upstream order, and its count is
    [min 20 K]. *)
Theorem getRecentTrades_first_20 (now now' : Z) (timestamp model : string)
    (up : Upstream) (st : Store KsvcModelData) (data : KsvcModelData) :
  fst (fetchModelData now now' model up st) = Normal data ->
  let filled := default [] (filledOrders data) in
  let K := length filled in
  exists view,
    fst (getRecentTrades now now' timestamp model up st) = Normal view /\
    recentTrades view = take (Nat.min K 20) filled /\
    length (recentTrades view) = Nat.min K 20 /\
    (forall i, (i < Nat.min K 20)%nat -> recentTrades view !! i = filled !! i) /\
    rt_count view = Nat.min 20 K.
Proof.
  intros Hdata filled K. unfold getRecentTrades.
  destruct (fetchModelData now now' model up st) as [fetched st'].
  simpl in Hdata. subst fetched. eexists. split; [reflexivity |].
  cbn [recentTrades rt_count]. fold filled. fold K. unfold slice_0_20.
  assert (Htake : take 20 filled = take (Nat.min K 20) filled).
  { destruct (Nat.le_gt_cases K 20) as [Hle | Hgt].
    - rewrite Nat.min_l by done. rewrite take_ge by done. symmetry. apply firstn_all.
    - rewrite Nat.min_r by lia. reflexivity. }
  repeat split.
  - exact Htake.
  - rewrite length_take. fold K. lia.
  - intros i Hi. apply lookup_take_lt. lia.
Qed.

Lemma getRecentTrades_first_20_witness :
  let order := {| fo_ticker := "NVDA"; fo_action := "buy";
                  fo_quantity := JS.of_Z 10; fo_price := JS.of_ratio 1215 10;
                  fo_date := "2026-01-30"; fo_comment := None; fo_fee := None |} in
  let data := {| filledOrders := Some (replicate 23 order);
                 last_date := Some "2026-01-30" |} in
  exists view,
    fst (getRecentTrades 0 40 "2026-02-01T08:00:00.000Z" "usa-model3"
           (Response true 200 (Normal data)) {| cache := ∅; fetches := 0 |})
      = Normal view /\
    recentTrades view = replicate 20 order /\
    rt_count view = 20%nat.
Proof.
  intros order data.
  destruct (getRecentTrades_first_20 0 40 "2026-02-01T08:00:00.000Z" "usa-model3"
              (Response true 200 (Normal data)) {| cache := ∅; fetches := 0 |} data)
    as (view & Hview & Htrades & _ & _ & Hcount); [reflexivity |].
  exists view. split; [exact Hview |]. split; [exact Htrades | exact Hcount].
Defined.
